(** * oliepriser-scraper: a shallow embedding of [src/scraper.rs]

    Strings are Rust [String]s seen as sequences of Unicode scalar values
    (code points as [Z]); [f64] is IEEE-754 binary64 with its canonical
    finite encodings, and [str::parse::<f64>] is modelled by the grammar of
    Rust's [dec2flt] followed by correct rounding (nearest, ties to even).
    The HTTP and HTML collaborators (reqwest, scraper) are an environment
    record; the [buffer_unordered(10)] fan-out is a small-step scheduler. *)

From Stdlib Require Import String Ascii ZArith List Bool Lia Permutation.
Import ListNotations.
Open Scope Z_scope.
Open Scope list_scope.

(** ** Strings as code points *)

Definition str := list Z.

Fixpoint chars (s : string) : str :=
  match s with
  | EmptyString => []
  | String a r => Z.of_nat (nat_of_ascii a) :: chars r
  end.

Fixpoint prefixb (p s : str) : bool :=
  match p, s with
  | [], _ => true
  | c :: p', d :: s' => (c =? d) && prefixb p' s'
  | _ :: _, [] => false
  end.

(** [str::replace(pat, to)] for a non-empty pattern: one left-to-right
    pass over non-overlapping matches. [fuel] is the length of the input. *)
Fixpoint replace_go (fuel : nat) (pat to s : str) : str :=
  match fuel with
  | O => s
  | S f =>
    match s with
    | [] => []
    | c :: s' =>
      if prefixb pat s then app to (replace_go f pat to (skipn (length pat) s))
      else c :: replace_go f pat to s'
    end
  end.

Definition replace (pat to s : str) : str := replace_go (length s) pat to s.

(** [str::replace(char, to)] *)
Fixpoint replace_char (c : Z) (to s : str) : str :=
  match s with
  | [] => []
  | d :: s' => if d =? c then app to (replace_char c to s') else d :: replace_char c to s'
  end.

(** [char::is_whitespace]: the Unicode White_Space property. *)
Definition is_whitespace (c : Z) : bool :=
  ((9 <=? c) && (c <=? 13)) || (c =? 32) || (c =? 133) || (c =? 160)
  || (c =? 5760) || ((8192 <=? c) && (c <=? 8202)) || (c =? 8232)
  || (c =? 8233) || (c =? 8239) || (c =? 8287) || (c =? 12288).

(** [str::replace(|c| c.is_whitespace(), ...)] with the empty replacement *)
Fixpoint remove_ws (s : str) : str :=
  match s with
  | [] => []
  | d :: s' => if is_whitespace d then remove_ws s' else d :: remove_ws s'
  end.

(** ** binary64 *)

(** Finite values are [(-1)^neg * m * 2^e] in canonical form: either
    [2^52 <= m < 2^53] and [-1074 <= e <= 971] (normal), or [m < 2^52]
    and [e = -1074] (subnormal and zero). *)
Inductive f64 :=
| F64Fin (neg : bool) (m : Z) (e : Z)
| F64Inf (neg : bool)
| F64NaN.

Definition f64_eqb (x y : f64) : bool :=
  match x, y with
  | F64Fin n1 m1 e1, F64Fin n2 m2 e2 => Bool.eqb n1 n2 && (m1 =? m2) && (e1 =? e2)
  | F64Inf n1, F64Inf n2 => Bool.eqb n1 n2
  | _, _ => false
  end.

(** [x > 0.0] *)
Definition gt0 (x : f64) : bool :=
  match x with
  | F64Fin false m _ => 0 <? m
  | F64Inf false => true
  | _ => false
  end.

Definition with_sign (neg : bool) (x : f64) : f64 :=
  match x with
  | F64Fin _ m e => F64Fin neg m e
  | F64Inf _ => F64Inf neg
  | F64NaN => F64NaN
  end.

(** [2^k <= n / d] for [n, d > 0] *)
Definition pow2_le (k n d : Z) : bool :=
  if 0 <=? k then d * 2 ^ k <=? n else d <=? n * 2 ^ (- k).

(** [num / den] rounded to nearest, ties to even. *)
Definition round_half_even (num den : Z) : Z :=
  let q := num / den in
  let r := num mod den in
  if den <? 2 * r then q + 1
  else if 2 * r <? den then q
  else if Z.even q then q else q + 1.

(** The binary64 value nearest to [n / d] ([n, d > 0]), ties to even. *)
Definition round_pos (n d : Z) : f64 :=
  let k0 := Z.log2 n - Z.log2 d in
  let k := if pow2_le k0 n d then k0 else k0 - 1 in
  let e := Z.max (k - 52) (-1074) in
  let num := if e <? 0 then n * 2 ^ (- e) else n in
  let den := if e <? 0 then d else d * 2 ^ e in
  let m := round_half_even num den in
  let '(m, e) := if m =? 2 ^ 53 then (2 ^ 52, e + 1) else (m, e) in
  if 971 <? e then F64Inf false else F64Fin false m e.

(** The binary64 value nearest to [digits * 10^exp], [digits >= 0]. *)
Definition dec_to_f64 (digits exp : Z) : f64 :=
  if digits =? 0 then F64Fin false 0 (-1074)
  else if 0 <=? exp then round_pos (digits * 10 ^ exp) 1
  else round_pos digits (10 ^ (- exp)).

(** The meaning of a Rust literal [m e exp], e.g. [lit 123456 (-2)] is
    [1234.56_f64]. *)
Definition lit (digits exp : Z) : f64 := dec_to_f64 digits exp.

(** ** [str::parse::<f64>] ([core::num::dec2flt]) *)

Inductive ParseFloatError := PFEmpty | PFInvalid.

Inductive result (A E : Type) := Ok (a : A) | Err (e : E).
Arguments Ok {A E} a.
Arguments Err {A E} e.

Definition is_digit (c : Z) : bool := (48 <=? c) && (c <=? 57).

Fixpoint take_digits (s : str) : list Z * str :=
  match s with
  | c :: s' => if is_digit c then let '(ds, r) := take_digits s' in ((c - 48) :: ds, r)
               else ([], s)
  | [] => ([], [])
  end.

Definition digits_value (ds : list Z) : Z := fold_left (fun acc d => 10 * acc + d) ds 0.

(** [parse_scientific]: the exponent accumulates only while below [0x10000]. *)
Definition parse_scientific (s : str) : option (Z * str) :=
  let '(neg, s1) := match s with
                    | c :: s' => if (c =? 45) || (c =? 43) then (c =? 45, s') else (false, s)
                    | [] => (false, s)
                    end in
  match take_digits s1 with
  | ([], _) => None
  | (ds, r) =>
    let x := fold_left (fun acc d => if acc <? 65536 then 10 * acc + d else acc) ds 0 in
    Some (if neg then - x else x, r)
  end.

(** [parse_number]: the whole input must be consumed. *)
Definition parse_number (s : str) : option (Z * Z) :=
  let '(ip, r1) := take_digits s in
  let '(fp, r2) := match r1 with
                   | c :: r => if c =? 46 then take_digits r else ([], r1)
                   | [] => ([], r1)
                   end in
  if Nat.eqb (length ip + length fp) O then None
  else
    let mant := digits_value (app ip fp) in
    let ex := - Z.of_nat (length fp) in
    match r2 with
    | [] => Some (mant, ex)
    | c :: r3 =>
      if (c =? 101) || (c =? 69) then
        match parse_scientific r3 with
        | Some (x, []) => Some (mant, ex + x)
        | _ => None
        end
      else None
    end.

Definition to_lower (c : Z) : Z := if (65 <=? c) && (c <=? 90) then c + 32 else c.

Definition eq_ignore_case (s t : str) : bool :=
  Nat.eqb (length s) (length t) && forallb (fun '(a, b) => to_lower a =? b) (combine s t).

Definition parse_inf_nan (s : str) : option f64 :=
  if eq_ignore_case s (chars "nan") then Some F64NaN
  else if eq_ignore_case s (chars "inf") then Some (F64Inf false)
  else if eq_ignore_case s (chars "infinity") then Some (F64Inf false)
  else None.

Definition parse_f64 (s : str) : result f64 ParseFloatError :=
  match s with
  | [] => Err PFEmpty
  | c :: rest =>
    let neg := c =? 45 in
    let s1 := if (c =? 45) || (c =? 43) then rest else s in
    match s1 with
    | [] => Err PFInvalid
    | _ =>
      match parse_number s1 with
      | Some (mant, ex) => Ok (with_sign neg (dec_to_f64 mant ex))
      | None =>
        match parse_inf_nan s1 with
        | Some x => Ok (with_sign neg x)
        | None => Err PFInvalid
        end
      end
    end
  end.

(** ** [Scraper::sanitize_price_string] *)

Definition sanitized (price_string : str) : str :=
  remove_ws
    (replace_char 44 (chars ".")
       (replace_char 46 []
          (replace (chars ",-") []
             (replace (chars "kr.") [] price_string)))).

Definition parse_error_message (e : ParseFloatError) : string :=
  match e with
  | PFEmpty => "Failed to parse price: cannot parse float from empty string"
  | PFInvalid => "Failed to parse price: invalid float literal"
  end.

Definition sanitize_price_string (price_string : str) : result f64 string :=
  match parse_f64 (sanitized price_string) with
  | Ok v => Ok v
  | Err e => Err (parse_error_message e)
  end.

(** ** [impl Display for f64] (the [{}] format)

    Shortest digit string that parses back to the same value (closest such
    string), written positionally without an exponent. *)

Fixpoint log10_go (fuel : nat) (n : Z) : Z :=
  match fuel with
  | O => 0
  | S f => if n <? 10 then 0 else 1 + log10_go f (n / 10)
  end.

(** [floor(log10 n)] for [n > 0] *)
Definition zlog10 (n : Z) : Z := log10_go (Z.to_nat (Z.log2 n + 1)) n.

Definition pow10_le (k n d : Z) : bool :=
  if 0 <=? k then d * 10 ^ k <=? n else d <=? n * 10 ^ (- k).

(** [floor(log10(n / d))] for [n, d > 0] *)
Definition floor_log10 (n d : Z) : Z :=
  let k0 := zlog10 n - zlog10 d in
  if pow10_le k0 n d then k0 else k0 - 1.

Fixpoint zdigits_go (fuel : nat) (n : Z) (acc : str) : str :=
  match fuel with
  | O => acc
  | S f => if n <? 10 then (48 + n) :: acc
           else zdigits_go f (n / 10) ((48 + n mod 10) :: acc)
  end.

(** Decimal digits of [n >= 0]. *)
Definition zdigits (n : Z) : str := zdigits_go (S (Z.to_nat (zlog10 n))) n [].

(** [n / d] rounded to [nd] significant digits: [(digits, exponent)]. *)
Definition round_sig (n d : Z) (nd : nat) : Z * Z :=
  let x := floor_log10 n d - Z.of_nat nd + 1 in
  let dd := if 0 <=? x then round_half_even n (d * 10 ^ x)
            else round_half_even (n * 10 ^ (- x)) d in
  if dd =? 10 ^ Z.of_nat nd then (10 ^ (Z.of_nat nd - 1), x + 1) else (dd, x).

Fixpoint shortest_go (n d : Z) (v : f64) (nd : nat) (fuel : nat) : Z * Z :=
  match fuel with
  | O => round_sig n d nd
  | S f =>
    let '(dd, x) := round_sig n d nd in
    if f64_eqb (dec_to_f64 dd x) v then (dd, x) else shortest_go n d v (S nd) f
  end.

Definition positional (dd x : Z) : str :=
  let ds := zdigits dd in
  if 0 <=? x then app ds (repeat 48 (Z.to_nat x))
  else
    let k := Z.to_nat (- x) in
    let len := length ds in
    if Nat.ltb k len then app (firstn (len - k) ds) (46 :: skipn (len - k) ds)
    else app (chars "0.") (app (repeat 48 (k - len)) ds).

Definition render (v : f64) : str :=
  match v with
  | F64NaN => chars "NaN"
  | F64Inf neg => app (if neg then [45] else []) (chars "inf")
  | F64Fin neg m e =>
    app (if neg then [45] else [])
      (if m =? 0 then chars "0"
       else
         let '(n, d) := if 0 <=? e then (m * 2 ^ e, 1) else (m, 2 ^ (- e)) in
         let '(dd, x) := shortest_go n d (F64Fin false m e) 1 16 in
         positional dd x)
  end.

(** ** Data model ([Providers], [Provider], [Token]) *)

Record Providers := mkProviders { providers_id : Z }.

Record Provider := mkProvider {
  id : Z;
  name : str;
  url : str;
  html_element : str
}.

Record Token := mkToken { access_token : str; token_type : str }.

(** Errors are carried as their message. *)
Definition rerr := string.

(** A response as reqwest delivers it: [send()] fails (transport), or a
    status with a body whose reading ([text()]) may fail. *)
Inductive Response :=
| Transport (e : rerr)
| Resp (status : Z) (body : result str rerr).

Definition is_success (status : Z) : bool := (200 <=? status) && (status <=? 299).

(** The collaborators of [Scraper]: the control API, the external pages,
    [Url::parse], [Selector::parse] and [Html::parse_document] +
    [document.select] + [element.text()] (the texts of the matched elements
    in document order). *)
Record Env := mkEnv {
  e_login : result Token rerr;                 (* get_token: send()?.json()? *)
  e_catalog : Response;                        (* GET /scraping_runs/providers *)
  e_catalog_json : str -> option (list Providers);
  e_get_provider : Z -> result Provider rerr;  (* get_provider: send()?.json()? *)
  e_page : str -> Response;                    (* GET provider.url *)
  e_post_price : Z -> f64 -> Response;         (* POST /providers/{id}/prices *)
  e_post_run : Response;                       (* POST /scraping_runs *)
  e_url_ok : str -> bool;
  e_sel_ok : str -> bool;
  e_select : str -> str -> list str
}.

(** Observable effects: requests issued and lines logged. *)
Inductive Event :=
| EvLogin
| EvGetCatalog
| EvGetProvider (pid : Z)
| EvGetPage (u : str)
| EvPostPrice (pid : Z) (price : f64)
| EvPostRun
| EvLogAdded (pid : Z)
| EvLogAddFailed (pid : Z) (status : Z)
| EvLogAddError (pname : str)
| EvLogScraping (pname : str)
| EvLogNoPrice (pname : str).

Section Scraper.

Variable env : Env.

(** [Scraper::add_price_for_provider] *)
Definition add_price_for_provider (provider_id : Z) (price : f64)
  : result unit rerr * list Event :=
  let ev := [EvPostPrice provider_id price] in
  match e_post_price env provider_id price with
  | Transport e => (Err e, ev)
  | Resp status body =>
    if is_success status then
      match body with
      | Ok _ => (Ok tt, ev ++ [EvLogAdded provider_id])
      | Err e => (Err e, ev)
      end
    else (Ok tt, ev ++ [EvLogAddFailed provider_id status])
  end.

(** The [Ok(price) if price > 0.0] arm of [extract_price]:
    [if let Err(e) = self.add_price_for_provider(..) { eprintln!(..) }]. *)
Definition report_found (provider : Provider) (price : f64) : list Event :=
  let '(r, evs) := add_price_for_provider (id provider) price in
  evs ++ match r with
         | Err _ => [EvLogAddError (name provider)]
         | Ok _ => []
         end.

(** [Scraper::extract_price] over the candidate texts, in document order. *)
Fixpoint extract_price (provider : Provider) (cands : list str) : list Event :=
  match cands with
  | [] => [EvLogNoPrice (name provider)]
  | price_string :: rest =>
    match sanitize_price_string price_string with
    | Ok price =>
      if gt0 price then report_found provider price
      else extract_price provider rest
    | Err _ => extract_price provider rest
    end
  end.

(** Outcome of one pipeline (the [async move] block of
    [Scraper::handle_scraping]): its [Result], or a panic from an
    [unwrap()]. *)
Inductive POutcome := PDone (r : result unit rerr) | PPanic.

Definition pipeline (pr : Providers) : POutcome * list Event :=
  let ev0 := [EvGetProvider (providers_id pr)] in
  match e_get_provider env (providers_id pr) with
  | Err e => (PDone (Err e), ev0)
  | Ok provider =>
    let ev1 := ev0 ++ [EvLogScraping (name provider)] in
    if negb (e_sel_ok env (html_element provider)) then (PPanic, ev1)
    else if negb (e_url_ok env (url provider)) then (PPanic, ev1)
    else
      let ev2 := ev1 ++ [EvGetPage (url provider)] in
      match e_page env (url provider) with
      | Transport e => (PDone (Err e), ev2)
      | Resp _ (Err e) => (PDone (Err e), ev2)
      | Resp _ (Ok body) =>
        (PDone (Ok tt),
         ev2 ++ extract_price provider (e_select env (html_element provider) body))
      end
  end.

End Scraper.

(** ** [stream::iter(tasks).buffer_unordered(10).collect()]

    [pending] are the futures not yet pulled from the iterator (catalog
    order), [inflight] those being polled, [done] the collected results in
    completion order. A future is pulled only while fewer than 10 are in
    flight; any in-flight future may complete next. A panic while a future
    is polled unwinds through [collect] and stops the fan-out. *)

Definition max_in_flight : nat := 10.

Record Sched := mkSched {
  pending : list Providers;
  inflight : list Providers;
  done : list (result unit rerr);
  trace : list Event;
  panicked : bool
}.

Definition sched_init (catalog : list Providers) : Sched :=
  mkSched catalog [] [] [] false.

Definition complete_with (pend pre post : list Providers) (d : list (result unit rerr))
    (t : list Event) (out : POutcome * list Event) : Sched :=
  match out with
  | (PDone r, evs) => mkSched pend (pre ++ post) (d ++ [r]) (t ++ evs) false
  | (PPanic, evs) => mkSched pend (pre ++ post) d (t ++ evs) true
  end.

Inductive sstep (env : Env) : Sched -> Sched -> Prop :=
| s_dispatch : forall p rest fl d t,
    (length fl < max_in_flight)%nat ->
    sstep env (mkSched (p :: rest) fl d t false) (mkSched rest (fl ++ [p]) d t false)
| s_complete : forall pend pre p post d t,
    sstep env (mkSched pend (pre ++ p :: post) d t false)
              (complete_with pend pre post d t (pipeline env p)).

Inductive sstar (env : Env) : Sched -> Sched -> Prop :=
| sstar_refl : forall s, sstar env s s
| sstar_step : forall s1 s2 s3, sstep env s1 s2 -> sstar env s2 s3 -> sstar env s1 s3.

Definition terminal (env : Env) (s : Sched) : Prop := forall s', ~ sstep env s s'.

(** [for result in results { result?; }] *)
Fixpoint first_err (results : list (result unit rerr)) : result unit rerr :=
  match results with
  | [] => Ok tt
  | Ok _ :: rs => first_err rs
  | Err e :: _ => Err e
  end.

(** ** [Scraper::run] *)

Inductive RunOutcome := RunOk | RunErr (e : rerr) | RunPanic.

(** [HeaderValue::from_str]: tab or a byte in [32..255] other than 127; a
    non-ASCII code point is encoded with bytes [>= 128]. *)
Definition header_char_ok (c : Z) : bool := (c =? 9) || ((32 <=? c) && negb (c =? 127)).

Definition auth_value (tok : Token) : str := token_type tok ++ [32] ++ access_token tok.

(** [Scraper::configure_client] (the client builder itself is taken to
    succeed). *)
Definition configure_client (tok : Token) : result unit rerr :=
  if forallb header_char_ok (auth_value tok) then Ok tt
  else Err "failed to parse header value"%string.

(** [Scraper::fetch_providers] *)
Definition fetch_providers (env : Env) : result (list Providers) rerr :=
  match e_catalog env with
  | Transport e => Err e
  | Resp _ (Err e) => Err e
  | Resp status (Ok body) =>
    if is_success status then
      match e_catalog_json env body with
      | Some l => Ok l
      | None => Err "invalid catalog body"%string
      end
    else Err "Failed to fetch providers"%string
  end.

(** [Scraper::post_run]: only [send()] can fail; the status is not checked. *)
Definition post_run (env : Env) : result unit rerr :=
  match e_post_run env with
  | Transport e => Err e
  | Resp _ _ => Ok tt
  end.

(** The rest of [run] once [handle_scraping] has collected every result:
    [handle_scraping().await?], then [post_run().await?]. *)
Definition after_scraping (env : Env) (s : Sched) : RunOutcome * list Event :=
  if panicked s then (RunPanic, [])
  else
    match first_err (done s) with
    | Err e => (RunErr e, [])
    | Ok _ =>
      match post_run env with
      | Err e => (RunErr e, [EvPostRun])
      | Ok _ => (RunOk, [EvPostRun])
      end
    end.

(** One call of [Scraper::run]: its outcome and its effects. *)
Inductive run (env : Env) : RunOutcome -> list Event -> Prop :=
| run_login_err : forall e,
    e_login env = Err e -> run env (RunErr e) [EvLogin]
| run_configure_panic : forall tok e,
    e_login env = Ok tok -> configure_client tok = Err e ->
    run env RunPanic [EvLogin]
| run_catalog_panic : forall tok e,
    e_login env = Ok tok -> configure_client tok = Ok tt ->
    fetch_providers env = Err e ->
    run env RunPanic [EvLogin; EvGetCatalog]
| run_scrape : forall tok catalog s,
    e_login env = Ok tok -> configure_client tok = Ok tt ->
    fetch_providers env = Ok catalog ->
    sstar env (sched_init catalog) s -> terminal env s ->
    run env (fst (after_scraping env s))
        ([EvLogin; EvGetCatalog] ++ trace s ++ snd (after_scraping env s)).

(** A candidate the pipeline accepts: it normalizes to a value [> 0]. *)
Definition usable (c : str) : bool :=
  match sanitize_price_string c with
  | Ok v => gt0 v
  | Err _ => false
  end.

Definition with_post_price (env : Env) (f : Z -> f64 -> Response) : Env :=
  {| e_login := e_login env; e_catalog := e_catalog env;
     e_catalog_json := e_catalog_json env; e_get_provider := e_get_provider env;
     e_page := e_page env; e_post_price := f; e_post_run := e_post_run env;
     e_url_ok := e_url_ok env; e_sel_ok := e_sel_ok env; e_select := e_select env |}.

Definition with_page (env : Env) (f : str -> Response) : Env :=
  {| e_login := e_login env; e_catalog := e_catalog env;
     e_catalog_json := e_catalog_json env; e_get_provider := e_get_provider env;
     e_page := f; e_post_price := e_post_price env; e_post_run := e_post_run env;
     e_url_ok := e_url_ok env; e_sel_ok := e_sel_ok env; e_select := e_select env |}.

Definition with_sel_ok (env : Env) (f : str -> bool) : Env :=
  {| e_login := e_login env; e_catalog := e_catalog env;
     e_catalog_json := e_catalog_json env; e_get_provider := e_get_provider env;
     e_page := e_page env; e_post_price := e_post_price env; e_post_run := e_post_run env;
     e_url_ok := e_url_ok env; e_sel_ok := f; e_select := e_select env |}.

Definition with_catalog (env : Env) (r : Response) : Env :=
  {| e_login := e_login env; e_catalog := r;
     e_catalog_json := e_catalog_json env; e_get_provider := e_get_provider env;
     e_page := e_page env; e_post_price := e_post_price env; e_post_run := e_post_run env;
     e_url_ok := e_url_ok env; e_sel_ok := e_sel_ok env; e_select := e_select env |}.

(** A well-behaved deployment: every request succeeds, every provider is
    ["Acme"] with selector [".price"], and the selector matches the whole
    page body once. *)
Definition demo_env : Env :=
  {| e_login := Ok (mkToken (chars "secret") (chars "Bearer"));
     e_catalog := Resp 200 (Ok (chars "[{id: 1}]"));
     e_catalog_json := fun _ => Some [mkProviders 1];
     e_get_provider := fun i => Ok (mkProvider i (chars "Acme") (chars "http://x/p") (chars ".price"));
     e_page := fun _ => Resp 200 (Ok (chars "kr. 199,-"));
     e_post_price := fun _ _ => Resp 201 (Ok []);
     e_post_run := Resp 201 (Ok []);
     e_url_ok := fun _ => true;
     e_sel_ok := fun _ => true;
     e_select := fun _ body => [body] |}.

Definition acme : Provider :=
  mkProvider 1 (chars "Acme") (chars "http://x/p") (chars ".price").

(** * Properties *)

(** ** Normalization *)

Lemma remove_ws_spec : forall s c, In c (remove_ws s) -> In c s /\ is_whitespace c = false.
Proof.
  induction s as [|d s IH]; simpl; intros c H; [contradiction|].
  destruct (is_whitespace d) eqn:Hd.
  - apply IH in H; tauto.
  - destruct H as [<-|H]; [auto|]. apply IH in H; tauto.
Qed.

Lemma replace_char_spec : forall c to s x,
  In x (replace_char c to s) -> (In x to \/ In x s) /\ (x = c -> In x to).
Proof.
  intros c to; induction s as [|d s IH]; simpl; intros x H; [contradiction|].
  destruct (d =? c) eqn:Hd.
  - apply in_app_or in H; destruct H as [H|H]; [tauto|].
    apply IH in H; tauto.
  - destruct H as [<-|H].
    + split; [tauto|]. intros ->. rewrite Z.eqb_refl in Hd; discriminate.
    + apply IH in H; tauto.
Qed.

Lemma remove_ws_id : forall s, (forall c, In c s -> is_whitespace c = false) -> remove_ws s = s.
Proof.
  induction s as [|d s IH]; simpl; intros H; [reflexivity|].
  rewrite (H d (or_introl eq_refl)), IH; auto.
Qed.

Lemma replace_char_absent : forall c to s, ~ In c s -> replace_char c to s = s.
Proof.
  intros c to; induction s as [|d s IH]; simpl; intros H; [reflexivity|].
  destruct (Z.eqb_spec d c) as [->|_]; [tauto|]. rewrite IH; auto.
Qed.

Lemma replace_char_nil : forall c s, replace_char c [] s = filter (fun x => negb (x =? c)) s.
Proof.
  intros c; induction s as [|d s IH]; simpl; [reflexivity|].
  destruct (d =? c); simpl; rewrite IH; reflexivity.
Qed.

Lemma replace_go_absent : forall f p0 pat to s,
  ~ In p0 s -> replace_go f (p0 :: pat) to s = s.
Proof.
  induction f as [|f IH]; intros p0 pat to s H; simpl; [reflexivity|].
  destruct s as [|c s']; [reflexivity|].
  simpl. destruct (Z.eqb_spec p0 c) as [->|_]; [simpl in H; tauto|].
  simpl. rewrite IH; [reflexivity|]. simpl in H; tauto.
Qed.

Lemma replace_absent : forall p0 pat to s, ~ In p0 s -> replace (p0 :: pat) to s = s.
Proof. intros; apply replace_go_absent; assumption. Qed.

Lemma in_filter_ne : forall c x s, In x (filter (fun y => negb (y =? c)) s) -> In x s.
Proof. intros c x s H. apply filter_In in H. tauto. Qed.

Lemma sanitized_no_ws_no_comma : forall s c,
  In c (sanitized s) -> is_whitespace c = false /\ c <> 44.
Proof.
  intros s c H. unfold sanitized in H.
  apply remove_ws_spec in H as [H Hws]. split; [exact Hws|].
  intros ->. apply replace_char_spec in H as [_ H].
  specialize (H eq_refl). simpl in H. destruct H as [H|[]]. discriminate.
Qed.

(** A string with no [','], no ['k'] and no whitespace (every rendering of
    an [f64]) is sanitized to itself with its ['.'] characters deleted. *)
Definition plain_char (c : Z) : bool :=
  negb (c =? 44) && negb (c =? 107) && negb (is_whitespace c).

Lemma sanitized_plain : forall r,
  forallb plain_char r = true ->
  sanitized r = filter (fun x => negb (x =? 46)) r.
Proof.
  intros r Hr.
  assert (H : forall c, In c r -> c <> 44 /\ c <> 107 /\ is_whitespace c = false).
  { intros c Hc. rewrite forallb_forall in Hr. specialize (Hr c Hc).
    unfold plain_char in Hr. apply andb_prop in Hr as [Hr Hws]. apply andb_prop in Hr as [H1 H2].
    apply negb_true_iff in H1, H2, Hws. apply Z.eqb_neq in H1, H2. tauto. }
  unfold sanitized.
  change (chars "kr.") with [107; 114; 46]. change (chars ",-") with [44; 45].
  rewrite (replace_absent 107). 2: { intros Hin; apply H in Hin; tauto. }
  rewrite (replace_absent 44). 2: { intros Hin; apply H in Hin; tauto. }
  rewrite replace_char_nil, replace_char_absent.
  - apply remove_ws_id. intros c Hc. apply in_filter_ne in Hc. apply H in Hc; tauto.
  - intros Hin. apply in_filter_ne in Hin. apply H in Hin; tauto.
Qed.

Lemma extract_price_skip : forall env provider pre rest,
  (forall x, In x pre -> usable x = false) ->
  extract_price env provider (pre ++ rest) = extract_price env provider rest.
Proof.
  intros env provider pre rest; induction pre as [|c pre IH]; intros H; [reflexivity|].
  simpl. pose proof (H c (or_introl eq_refl)) as Hc. unfold usable in Hc.
  destruct (sanitize_price_string c) as [v|m].
  - rewrite Hc. apply IH. intros x Hx; apply H; right; exact Hx.
  - apply IH. intros x Hx; apply H; right; exact Hx.
Qed.

Lemma extract_price_found : forall env provider c post v,
  sanitize_price_string c = Ok v -> gt0 v = true ->
  extract_price env provider (c :: post) = report_found env provider v.
Proof. intros env provider c post v Hc Hv. simpl. rewrite Hc, Hv. reflexivity. Qed.

Lemma extract_price_none : forall env provider cands,
  (forall x, In x cands -> usable x = false) ->
  extract_price env provider cands = [EvLogNoPrice (name provider)].
Proof.
  intros env provider cands H. rewrite <- (app_nil_r cands).
  rewrite extract_price_skip; [reflexivity|exact H].
Qed.

(** [C4] [sanitize_price_string] removes every ["kr."], then every [",-"],
    then every ['.'], turns every [','] into ['.'], removes all whitespace,
    and parses the rest as an [f64], failing exactly when the parse fails;
    the result holds no whitespace and no [','].
    [normalize("kr. 199,-") == 199.0], [normalize("1.234,56") == 1234.56]
    and [normalize("abc")] fails. *)
Theorem sanitize_price_string_steps :
  (forall s,
     sanitized s =
       remove_ws (replace_char 44 (chars ".")
         (replace_char 46 [] (replace (chars ",-") [] (replace (chars "kr.") [] s))))
     /\ (forall c, In c (sanitized s) -> is_whitespace c = false /\ c <> 44)
     /\ (forall v, sanitize_price_string s = Ok v <-> parse_f64 (sanitized s) = Ok v)
     /\ ((exists m, sanitize_price_string s = Err m) <->
         (exists e, parse_f64 (sanitized s) = Err e)))
  /\ sanitize_price_string (chars "kr. 199,-") = Ok (lit 1990 (-1))
  /\ sanitize_price_string (chars "1.234,56") = Ok (lit 123456 (-2))
  /\ (exists m, sanitize_price_string (chars "abc") = Err m).
Proof.
  split; [|split; [vm_compute; reflexivity|split; [vm_compute; reflexivity|]]].
  - intros s. split; [reflexivity|]. split; [apply sanitized_no_ws_no_comma|].
    unfold sanitize_price_string.
    destruct (parse_f64 (sanitized s)) as [v|e]; split.
    + intros v'; split; intros H; inversion H; reflexivity.
    + split; intros [x H]; discriminate.
    + intros v'; split; intros H; discriminate.
    + split; intros _; eexists; reflexivity.
  - eexists; vm_compute; reflexivity.
Qed.

Lemma report_found_posts : forall env provider v,
  hd_error (report_found env provider v) = Some (EvPostPrice (id provider) v).
Proof.
  intros env provider v. unfold report_found, add_price_for_provider.
  destruct (e_post_price env (id provider) v) as [e|status [b|e]]; [reflexivity|..];
    destruct (is_success status); reflexivity.
Qed.

(** [C3] Candidates are tried in document order: the first one that
    normalizes to a value [> 0] is reported and the later ones play no
    part; candidates that fail to parse or are [<= 0] are skipped; when no
    candidate is usable the pipeline still succeeds, logging "no price
    found". For ["abc"], ["50,00"], ["99,00"] the price [50.0] is reported,
    whatever the third candidate is. *)
Theorem extract_price_first_match :
  (forall env provider pre c post v,
     (forall x, In x pre -> usable x = false) ->
     sanitize_price_string c = Ok v -> gt0 v = true ->
     extract_price env provider (pre ++ c :: post) = report_found env provider v
     /\ hd_error (extract_price env provider (pre ++ c :: post)) =
        Some (EvPostPrice (id provider) v)
     /\ forall post', extract_price env provider (pre ++ c :: post') =
                      extract_price env provider (pre ++ c :: post))
  /\ (forall env pr provider status body,
     e_get_provider env (providers_id pr) = Ok provider ->
     e_sel_ok env (html_element provider) = true ->
     e_url_ok env (url provider) = true ->
     e_page env (url provider) = Resp status (Ok body) ->
     (forall x, In x (e_select env (html_element provider) body) -> usable x = false) ->
     pipeline env pr =
       (PDone (Ok tt), [EvGetProvider (providers_id pr); EvLogScraping (name provider);
                        EvGetPage (url provider); EvLogNoPrice (name provider)]))
  /\ (forall env x,
     extract_price env acme [chars "abc"; chars "50,00"; x] = report_found env acme (lit 500 (-1))
     /\ hd_error (extract_price env acme [chars "abc"; chars "50,00"; x]) =
        Some (EvPostPrice 1 (lit 50 0))).
Proof.
  split; [|split].
  - intros env provider pre c post v Hpre Hc Hv.
    assert (E : forall q, extract_price env provider (pre ++ c :: q) = report_found env provider v).
    { intros q. rewrite extract_price_skip by exact Hpre. apply extract_price_found; assumption. }
    split; [apply E|split; [rewrite E; apply report_found_posts|]].
    intros post'. rewrite !E. reflexivity.
  - intros env pr provider status body Hp Hs Hu Hpage Hnone.
    unfold pipeline. rewrite Hp, Hs, Hu, Hpage. simpl.
    rewrite extract_price_none by exact Hnone. reflexivity.
  - intros env x.
    assert (E : extract_price env acme [chars "abc"; chars "50,00"; x] =
                report_found env acme (lit 500 (-1))).
    { apply (extract_price_found env acme (chars "50,00") [x] (lit 500 (-1))
             ltac:(vm_compute; reflexivity) ltac:(vm_compute; reflexivity)). }
    split; [exact E|]. rewrite E, report_found_posts.
    vm_compute. reflexivity.
Qed.

Lemma extract_price_first_match_witness :
  extract_price demo_env acme [chars "abc"; chars "50,00"; chars "99,00"] =
  [EvPostPrice 1 (lit 50 0); EvLogAdded 1]
  /\ pipeline (with_page demo_env (fun _ => Resp 200 (Ok (chars "0,00")))) (mkProviders 1) =
     (PDone (Ok tt), [EvGetProvider 1; EvLogScraping (chars "Acme");
                      EvGetPage (chars "http://x/p"); EvLogNoPrice (chars "Acme")]).
Proof.
  destruct extract_price_first_match as [H1 [H2 H3]].
  split.
  - destruct (H3 demo_env (chars "99,00")) as [-> _]. vm_compute. reflexivity.
  - apply (H2 _ (mkProviders 1) acme 200 (chars "0,00")); try reflexivity.
    intros x Hx. destruct Hx as [<-|[]]. vm_compute. reflexivity.
Defined.

(** [C5] Re-normalizing the rendering [r] of a value (a string with no
    [','], ['k'] or whitespace) parses [r] with every ['.'] deleted: a
    rendering without ['.'] gives back the same number, but [1234.56],
    rendered ["1234.56"], comes back as [123456]. *)
Theorem renormalize_drops_decimal_point :
  forall r, forallb plain_char r = true ->
  (forall v, sanitize_price_string r = Ok v <->
             parse_f64 (filter (fun x => negb (x =? 46)) r) = Ok v)
  /\ (~ In 46 r -> forall v, sanitize_price_string r = Ok v <-> parse_f64 r = Ok v).
Proof.
  intros r Hr.
  assert (Hv : forall v, sanitize_price_string r = Ok v <->
                         parse_f64 (filter (fun x => negb (x =? 46)) r) = Ok v).
  { intros v. unfold sanitize_price_string. rewrite sanitized_plain by exact Hr.
    destruct (parse_f64 _); split; intros H; inversion H; reflexivity. }
  split; [exact Hv|].
  intros Hdot v. rewrite Hv.
  assert (Hf : forall l, ~ In 46 l -> filter (fun x => negb (x =? 46)) l = l).
  { induction l as [|c l IH]; simpl; intros Hn; [reflexivity|].
    destruct (Z.eqb_spec c 46) as [->|_]; [tauto|]. simpl. rewrite IH; tauto. }
  rewrite Hf by exact Hdot. reflexivity.
Qed.

Lemma renormalize_drops_decimal_point_witness :
  forallb plain_char (render (lit 123456 (-2))) = true
  /\ sanitize_price_string (render (lit 123456 (-2))) = Ok (lit 123456 0)
  /\ forallb plain_char (render (lit 199 0)) = true
  /\ sanitize_price_string (render (lit 199 0)) = Ok (lit 199 0).
Proof.
  assert (P1 : forallb plain_char (render (lit 123456 (-2))) = true) by (vm_compute; reflexivity).
  assert (P2 : forallb plain_char (render (lit 199 0)) = true) by (vm_compute; reflexivity).
  split; [exact P1|split; [|split; [exact P2|]]].
  - apply (proj1 (renormalize_drops_decimal_point _ P1) (lit 123456 0)).
    vm_compute. reflexivity.
  - apply (proj2 (renormalize_drops_decimal_point _ P2)).
    + vm_compute. intros H. repeat (destruct H as [H|H]; [discriminate|]). exact H.
    + vm_compute. reflexivity.
Defined.

(** [C5], as stated, fails: ["1.234,56"] normalizes to [1234.56], which
    renders as ["1234.56"] and re-normalizes to [123456]. *)
Lemma renormalize_not_idempotent :
  ~ (forall raw v, sanitize_price_string raw = Ok v ->
                   sanitize_price_string (render v) = Ok v).
Proof.
  intros H.
  specialize (H (chars "1.234,56") (lit 123456 (-2)) ltac:(vm_compute; reflexivity)).
  vm_compute in H. discriminate H.
Qed.

Lemma sanitize_price_string_steps_witness :
  sanitize_price_string (chars "0,00") = Ok (lit 0 0)
  /\ gt0 (lit 0 0) = false
  /\ exists e, parse_f64 (sanitized (chars "abc")) = Err e.
Proof.
  destruct sanitize_price_string_steps as [H _].
  destruct (H (chars "0,00")) as [_ [_ [Hok _]]].
  destruct (H (chars "abc")) as [_ [_ [_ Herr]]].
  split; [|split; [vm_compute; reflexivity|]].
  - apply Hok. vm_compute. reflexivity.
  - apply Herr. eexists. vm_compute. reflexivity.
Defined.

(** [C9] A failed price report (transport failure, non-success status, or
    an unreadable body) is logged and never escalated: the pipeline's
    outcome does not depend on the price-report responses at all. *)
Theorem add_price_failure_contained :
  (forall env f pr, fst (pipeline (with_post_price env f) pr) = fst (pipeline env pr))
  /\ (forall env provider c rest v e,
        sanitize_price_string c = Ok v -> gt0 v = true ->
        e_post_price env (id provider) v = Transport e ->
        extract_price env provider (c :: rest) =
          [EvPostPrice (id provider) v; EvLogAddError (name provider)])
  /\ (forall env provider c rest v status body,
        sanitize_price_string c = Ok v -> gt0 v = true ->
        e_post_price env (id provider) v = Resp status body -> is_success status = false ->
        extract_price env provider (c :: rest) =
          [EvPostPrice (id provider) v; EvLogAddFailed (id provider) status])
  /\ (forall env provider c rest v status e,
        sanitize_price_string c = Ok v -> gt0 v = true ->
        e_post_price env (id provider) v = Resp status (Err e) ->
        extract_price env provider (c :: rest) =
          [EvPostPrice (id provider) v] ++
          (if is_success status then [EvLogAddError (name provider)]
           else [EvLogAddFailed (id provider) status])).
Proof.
  split; [|split; [|split]].
  - intros env f pr. unfold pipeline. simpl.
    destruct (e_get_provider env (providers_id pr)) as [provider|e]; [|reflexivity].
    destruct (e_sel_ok env _); [|reflexivity]. destruct (e_url_ok env _); [|reflexivity].
    destruct (e_page env _) as [e|st [b|e]]; reflexivity.
  - intros env provider c rest v e Hc Hv Hp.
    rewrite (extract_price_found env provider c rest v Hc Hv).
    unfold report_found, add_price_for_provider. rewrite Hp. reflexivity.
  - intros env provider c rest v status body Hc Hv Hp Hs.
    rewrite (extract_price_found env provider c rest v Hc Hv).
    unfold report_found, add_price_for_provider. rewrite Hp, Hs. reflexivity.
  - intros env provider c rest v status e Hc Hv Hp.
    rewrite (extract_price_found env provider c rest v Hc Hv).
    unfold report_found, add_price_for_provider. rewrite Hp.
    destruct (is_success status); reflexivity.
Qed.

Lemma add_price_failure_contained_witness :
  extract_price (with_post_price demo_env (fun _ _ => Transport "connection refused"%string))
    acme [chars "kr. 199,-"] =
    [EvPostPrice 1 (lit 199 0); EvLogAddError (chars "Acme")]
  /\ extract_price (with_post_price demo_env (fun _ _ => Resp 500 (Ok [])))
    acme [chars "kr. 199,-"] =
    [EvPostPrice 1 (lit 199 0); EvLogAddFailed 1 500]
  /\ extract_price (with_post_price demo_env (fun _ _ => Resp 200 (Err "body"%string)))
    acme [chars "kr. 199,-"] =
    [EvPostPrice 1 (lit 199 0); EvLogAddError (chars "Acme")]
  /\ fst (pipeline (with_post_price demo_env (fun _ _ => Transport "down"%string)) (mkProviders 1))
     = PDone (Ok tt).
Proof.
  destruct add_price_failure_contained as [H1 [H2 [H3 H4]]].
  split; [|split; [|split]].
  - apply (H2 _ acme (chars "kr. 199,-") [] _ "connection refused"%string);
      vm_compute; reflexivity.
  - apply (H3 _ acme (chars "kr. 199,-") [] _ 500 (Ok [])); vm_compute; reflexivity.
  - apply (H4 _ acme (chars "kr. 199,-") [] _ 200 "body"%string); vm_compute; reflexivity.
  - rewrite H1. vm_compute. reflexivity.
Defined.

(** [C10] The digit-free text ["inf"] normalizes to [+infinity], which
    passes the [price > 0.0] test, so it is reported as a price: being
    accepted does not make a price finite. *)
Theorem inf_is_a_usable_price :
  (forall c, In c (chars "inf") -> is_digit c = false)
  /\ sanitize_price_string (chars "inf") = Ok (F64Inf false)
  /\ gt0 (F64Inf false) = true
  /\ (forall env provider rest,
        extract_price env provider (chars "inf" :: rest) =
          report_found env provider (F64Inf false)
        /\ hd_error (extract_price env provider (chars "inf" :: rest)) =
           Some (EvPostPrice (id provider) (F64Inf false))).
Proof.
  split; [|split; [vm_compute; reflexivity|split; [reflexivity|]]].
  - intros c Hc. simpl in Hc.
    repeat (destruct Hc as [<-|Hc]; [reflexivity|]). destruct Hc.
  - intros env provider rest.
    assert (E : extract_price env provider (chars "inf" :: rest) =
                report_found env provider (F64Inf false)).
    { apply extract_price_found; vm_compute; reflexivity. }
    split; [exact E|]. rewrite E. apply report_found_posts.
Qed.

(** ** The bounded fan-out *)

Definition outs (env : Env) (l : list Providers) : list POutcome :=
  map (fun p => fst (pipeline env p)) l.

Definition measure (s : Sched) : nat := 2 * length (pending s) + length (inflight s).

Lemma sstep_unpanicked : forall env s s', sstep env s s' -> panicked s = false.
Proof. intros env s s' H; inversion H; reflexivity. Qed.

Lemma complete_with_fields : forall pend pre post d t out,
  pending (complete_with pend pre post d t out) = pend
  /\ inflight (complete_with pend pre post d t out) = pre ++ post.
Proof. intros pend pre post d t [[r|] evs]; split; reflexivity. Qed.

Lemma sstep_measure : forall env s s', sstep env s s' -> (measure s' < measure s)%nat.
Proof.
  intros env s s' H; inversion H; subst; unfold measure.
  - simpl. rewrite length_app. simpl. lia.
  - destruct (complete_with_fields pend pre post d t (pipeline env p)) as [-> ->].
    simpl. rewrite !length_app. simpl. lia.
Qed.

Lemma sstep_cap : forall env s s',
  sstep env s s' -> (length (inflight s) <= max_in_flight)%nat ->
  (length (inflight s') <= max_in_flight)%nat.
Proof.
  intros env s s' H Hc; inversion H; subst; simpl in *.
  - rewrite length_app. simpl. lia.
  - destruct (complete_with_fields pend pre post d t (pipeline env p)) as [_ ->].
    rewrite length_app in *. simpl in Hc. lia.
Qed.

Lemma sstar_cap : forall env s s',
  sstar env s s' -> (length (inflight s) <= max_in_flight)%nat ->
  (length (inflight s') <= max_in_flight)%nat.
Proof.
  intros env s s' H; induction H as [s|s1 s2 s3 H12 H23 IH]; intros Hc; [exact Hc|].
  apply IH. eapply sstep_cap; eassumption.
Qed.

Lemma dispatch_below_cap : forall env s s',
  sstep env s s' -> (length (pending s') < length (pending s))%nat ->
  (length (inflight s) < max_in_flight)%nat.
Proof.
  intros env s s' H Hp; inversion H; subst; simpl in *.
  - assumption.
  - destruct (complete_with_fields pend pre post d t (pipeline env p)) as [E _].
    rewrite E in Hp. lia.
Qed.

Lemma sched_progress : forall env s,
  panicked s = false -> (inflight s <> [] \/ pending s <> []) -> exists s', sstep env s s'.
Proof.
  intros env [pend fl d t pn] Hpn Hne; simpl in *; subst pn.
  destruct fl as [|p post].
  - destruct pend as [|p rest]; [destruct Hne as [H|H]; congruence|].
    eexists. apply s_dispatch. unfold max_in_flight; simpl; lia.
  - eexists. apply (s_complete env pend [] p post d t).
Qed.

Lemma terminal_empty : forall env s,
  terminal env s -> panicked s = false -> pending s = [] /\ inflight s = [].
Proof.
  intros env s Ht Hpn.
  destruct (inflight s) as [|p l] eqn:Ef; destruct (pending s) as [|q l'] eqn:Ep;
    try (split; reflexivity);
    destruct (sched_progress env s Hpn) as [s' Hs']; try (rewrite Ef, Ep; (left + right); discriminate);
    exfalso; exact (Ht s' Hs').
Qed.

Lemma panicked_terminal : forall env s, panicked s = true -> terminal env s.
Proof.
  intros env s Hp s' H. apply sstep_unpanicked in H. congruence.
Qed.

Lemma sched_terminates : forall env s, exists s', sstar env s s' /\ terminal env s'.
Proof.
  intros env s. remember (measure s) as n eqn:En.
  revert s En. induction n as [n IH] using (well_founded_induction lt_wf).
  intros s En.
  destruct (panicked s) eqn:Hp.
  - exists s. split; [constructor|]. apply panicked_terminal; exact Hp.
  - assert (Hstep : inflight s <> [] \/ pending s <> [] ->
                    exists s', sstar env s s' /\ terminal env s').
    { intros Hne. destruct (sched_progress env s Hp Hne) as [s1 H1].
      destruct (IH (measure s1)) with (s := s1) as [s2 [H12 H2]];
        [subst n; apply (sstep_measure env); exact H1|reflexivity|].
      exists s2. split; [eapply sstar_step; eassumption|exact H2]. }
    destruct (inflight s) as [|p l] eqn:Ef; destruct (pending s) as [|q l'] eqn:Eq;
      try (apply Hstep; (left + right); discriminate).
    exists s. split; [constructor|]. intros s' H.
    inversion H; subst; simpl in *; [discriminate|].
    destruct pre; discriminate.
Qed.

(** Every pipeline of the catalog is collected, in flight or pending, and a
    panic can only come from a pipeline of the catalog. *)
Definition sched_inv (env : Env) (catalog : list Providers) (s : Sched) : Prop :=
  (panicked s = false ->
   Permutation (map PDone (done s) ++ outs env (inflight s ++ pending s)) (outs env catalog))
  /\ (panicked s = true -> In PPanic (outs env catalog)).

Lemma sched_inv_init : forall env catalog, sched_inv env catalog (sched_init catalog).
Proof. intros env catalog. split; [intros _; reflexivity|discriminate]. Qed.

Lemma sstep_inv : forall env catalog s s',
  sstep env s s' -> sched_inv env catalog s -> sched_inv env catalog s'.
Proof.
  intros env catalog s s' H [Hperm Hpan]; inversion H; subst; simpl in *.
  - split; [|discriminate]. intros _.
    simpl. rewrite <- app_assoc. apply Hperm. reflexivity.
  - specialize (Hperm eq_refl).
    destruct (pipeline env p) as [[r|] evs] eqn:Ep; simpl.
    + split; [|discriminate]. intros _. simpl. rewrite <- Hperm.
      unfold outs. rewrite map_app, !map_app. simpl. rewrite Ep. simpl.
      rewrite <- !app_assoc. apply Permutation_app_head. simpl.
      apply Permutation_middle.
    + split; [discriminate|]. intros _.
      apply (Permutation_in _ Hperm). apply in_or_app. right.
      unfold outs. rewrite map_app, map_app. apply in_or_app. left.
      apply in_or_app. right. simpl. left. rewrite Ep. reflexivity.
Qed.

Lemma sstar_inv : forall env catalog s s',
  sstar env s s' -> sched_inv env catalog s -> sched_inv env catalog s'.
Proof.
  intros env catalog s s' H; induction H as [s|s1 s2 s3 H12 H23 IH]; intros Hi; [exact Hi|].
  apply IH. eapply sstep_inv; eassumption.
Qed.

Lemma reachable_inv : forall env catalog s,
  sstar env (sched_init catalog) s -> sched_inv env catalog s.
Proof. intros env catalog s H. eapply sstar_inv; [exact H|apply sched_inv_init]. Qed.

Lemma report_found_no_postrun : forall env provider v,
  ~ In EvPostRun (report_found env provider v).
Proof.
  intros env provider v. unfold report_found, add_price_for_provider.
  destruct (e_post_price env (id provider) v) as [e|st [b|e]]; simpl;
    try destruct (is_success st); simpl; intuition discriminate.
Qed.

Lemma extract_price_no_postrun : forall env provider cands,
  ~ In EvPostRun (extract_price env provider cands).
Proof.
  intros env provider; induction cands as [|c rest IH]; simpl.
  - intuition discriminate.
  - destruct (sanitize_price_string c) as [v|m]; [|exact IH].
    destruct (gt0 v); [apply report_found_no_postrun|exact IH].
Qed.

Lemma pipeline_no_postrun : forall env p, ~ In EvPostRun (snd (pipeline env p)).
Proof.
  intros env p. unfold pipeline.
  destruct (e_get_provider env (providers_id p)) as [provider|e]; simpl;
    [|intuition discriminate].
  destruct (e_sel_ok env _); simpl; [|intuition discriminate].
  destruct (e_url_ok env _); simpl; [|intuition discriminate].
  destruct (e_page env _) as [e|st [b|e]]; simpl; try (intuition discriminate).
  intros H. repeat (destruct H as [H|H]; [discriminate|]).
  exact (extract_price_no_postrun env provider _ H).
Qed.

Lemma sstar_no_postrun : forall env s s',
  sstar env s s' -> ~ In EvPostRun (trace s) -> ~ In EvPostRun (trace s').
Proof.
  intros env s s' H; induction H as [s|s1 s2 s3 H12 H23 IH]; intros Hn; [exact Hn|].
  apply IH. inversion H12; subst; simpl in *; [exact Hn|].
  pose proof (pipeline_no_postrun env p) as Hp.
  destruct (pipeline env p) as [[r|] evs]; simpl in *;
    intros Hin; apply in_app_or in Hin; tauto.
Qed.

Lemma reachable_no_postrun : forall env catalog s,
  sstar env (sched_init catalog) s -> ~ In EvPostRun (trace s).
Proof. intros env catalog s H. eapply sstar_no_postrun; [exact H|simpl; tauto]. Qed.

(** A reachable final schedule has collected a result for every pipeline,
    unless some pipeline of the catalog panicked. *)
Lemma terminal_collects_all : forall env catalog s,
  sstar env (sched_init catalog) s -> terminal env s -> panicked s = false ->
  pending s = [] /\ inflight s = [] /\
  Permutation (map PDone (done s)) (outs env catalog).
Proof.
  intros env catalog s Hr Ht Hp.
  destruct (terminal_empty env s Ht Hp) as [Ep Ef].
  destruct (reachable_inv env catalog s Hr) as [Hperm _].
  specialize (Hperm Hp). rewrite Ep, Ef in Hperm. simpl in Hperm.
  rewrite app_nil_r in Hperm. auto.
Qed.

Lemma panic_in_catalog_panics : forall env catalog s,
  In PPanic (outs env catalog) ->
  sstar env (sched_init catalog) s -> terminal env s -> panicked s = true.
Proof.
  intros env catalog s Hin Hr Ht.
  destruct (panicked s) eqn:Hp; [reflexivity|exfalso].
  destruct (terminal_collects_all env catalog s Hr Ht Hp) as [_ [_ Hperm]].
  apply (Permutation_in _ (Permutation_sym Hperm)) in Hin.
  apply in_map_iff in Hin as [r [Hr' _]]. discriminate.
Qed.

(** A catalog of two providers where provider 1 has the invalid selector
    ["["] and provider 2 is well configured. *)
Definition bad_selector_env : Env :=
  {| e_login := e_login demo_env;
     e_catalog := e_catalog demo_env;
     e_catalog_json := fun _ => Some [mkProviders 1; mkProviders 2];
     e_get_provider := fun i =>
       Ok (mkProvider i (chars "Acme") (chars "http://x/p")
                      (if i =? 1 then chars "[" else chars ".price"));
     e_page := e_page demo_env;
     e_post_price := e_post_price demo_env;
     e_post_run := e_post_run demo_env;
     e_url_ok := e_url_ok demo_env;
     e_sel_ok := fun sel => match sel with [91] => false | _ => true end;
     e_select := e_select demo_env |}.

(** Provider 2 is dispatched next to provider 1, whose panic ends the
    fan-out while provider 2 is still in flight. *)
Lemma bad_selector_schedule :
  sstar bad_selector_env (sched_init [mkProviders 1; mkProviders 2])
    (mkSched [] [mkProviders 2] []
       [EvGetProvider 1; EvLogScraping (chars "Acme")] true)
  /\ terminal bad_selector_env
    (mkSched [] [mkProviders 2] []
       [EvGetProvider 1; EvLogScraping (chars "Acme")] true).
Proof.
  split; [|apply panicked_terminal; reflexivity].
  eapply sstar_step; [apply s_dispatch; unfold max_in_flight; simpl; lia|].
  eapply sstar_step; [apply s_dispatch; unfold max_in_flight; simpl; lia|].
  eapply sstar_step; [apply (s_complete bad_selector_env [] [] (mkProviders 1) [mkProviders 2] [] [])|].
  vm_compute. apply sstar_refl.
Qed.

(** [C2] During the fan-out at most 10 pipelines are in flight, and a
    queued pipeline starts only while fewer than 10 are in flight. *)
Theorem buffer_unordered_cap : forall env catalog s,
  sstar env (sched_init catalog) s ->
  (length (inflight s) <= max_in_flight)%nat /\
  (forall s', sstep env s s' -> (length (pending s') < length (pending s))%nat ->
     (length (inflight s) < max_in_flight)%nat /\
     (length (inflight s') <= max_in_flight)%nat).
Proof.
  intros env catalog s Hr.
  assert (Hc : (length (inflight s) <= max_in_flight)%nat).
  { eapply sstar_cap; [exact Hr|simpl; unfold max_in_flight; lia]. }
  split; [exact Hc|]. intros s' Hs Hp. split.
  - eapply dispatch_below_cap; eassumption.
  - eapply sstep_cap; eassumption.
Qed.

Definition catalog11 : list Providers := map mkProviders [1;2;3;4;5;6;7;8;9;10;11].

Definition ten_in_flight : Sched :=
  mkSched [mkProviders 11] (firstn 10 catalog11) [] [] false.

Lemma ten_in_flight_reachable : sstar demo_env (sched_init catalog11) ten_in_flight.
Proof.
  unfold sched_init, catalog11, ten_in_flight. simpl.
  do 10 (eapply sstar_step; [apply s_dispatch; unfold max_in_flight; simpl; lia|]).
  apply sstar_refl.
Qed.

Lemma buffer_unordered_cap_witness :
  sstar demo_env (sched_init catalog11) ten_in_flight
  /\ (length (inflight ten_in_flight) <= max_in_flight)%nat
  /\ forall s', sstep demo_env ten_in_flight s' ->
       (length (pending s') < length (pending ten_in_flight))%nat -> False.
Proof.
  pose proof (buffer_unordered_cap demo_env catalog11 ten_in_flight ten_in_flight_reachable)
    as [Hc Hq].
  split; [exact ten_in_flight_reachable|split; [exact Hc|]].
  intros s' Hs Hp. destruct (Hq s' Hs Hp) as [Hlt _].
  vm_compute in Hlt. lia.
Defined.

(** [C1] (amended) Unless a pipeline panics, the fan-out ends only when
    every pipeline has completed: the collected results are exactly the
    results of all pipelines of the catalog (in completion order); the first
    error among them is then returned, and [post_run] is not called. *)
Theorem handle_scraping_collects_all : forall env catalog s,
  (forall p, In p catalog -> fst (pipeline env p) <> PPanic) ->
  sstar env (sched_init catalog) s -> terminal env s ->
  panicked s = false /\ pending s = [] /\ inflight s = [] /\
  Permutation (map PDone (done s)) (outs env catalog) /\
  (forall e, first_err (done s) = Err e ->
     after_scraping env s = (RunErr e, []) /\ ~ In EvPostRun (trace s)) /\
  (first_err (done s) = Ok tt -> snd (after_scraping env s) = [EvPostRun]).
Proof.
  intros env catalog s Hnp Hr Ht.
  assert (Hp : panicked s = false).
  { destruct (panicked s) eqn:Hp; [|reflexivity].
    destruct (reachable_inv env catalog s Hr) as [_ Hpan].
    apply Hpan in Hp. unfold outs in Hp. apply in_map_iff in Hp as [p [Hp Hin]].
    exfalso; exact (Hnp p Hin Hp). }
  destruct (terminal_collects_all env catalog s Hr Ht Hp) as [Ep [Ef Hperm]].
  split; [exact Hp|split; [exact Ep|split; [exact Ef|split; [exact Hperm|split]]]].
  - intros e He. unfold after_scraping. rewrite Hp, He. split; [reflexivity|].
    eapply reachable_no_postrun; exact Hr.
  - intros Ho. unfold after_scraping. rewrite Hp, Ho.
    destruct (post_run env); reflexivity.
Qed.

Lemma handle_scraping_collects_all_witness :
  exists s, sstar demo_env (sched_init [mkProviders 1; mkProviders 2]) s
  /\ terminal demo_env s /\ done s = [Ok tt; Ok tt] /\ pending s = [] /\ inflight s = [].
Proof.
  destruct (sched_terminates demo_env (sched_init [mkProviders 1; mkProviders 2]))
    as [s [Hr Ht]].
  exists s.
  assert (Hnp : forall p, In p [mkProviders 1; mkProviders 2] ->
                          fst (pipeline demo_env p) <> PPanic).
  { intros p Hin. destruct Hin as [<-|[<-|[]]]; vm_compute; discriminate. }
  destruct (handle_scraping_collects_all demo_env _ s Hnp Hr Ht)
    as [_ [Ep [Ef [Hperm _]]]].
  split; [exact Hr|split; [exact Ht|split; [|split; assumption]]].
  assert (Eo : outs demo_env [mkProviders 1; mkProviders 2] = [PDone (Ok tt); PDone (Ok tt)])
    by (vm_compute; reflexivity).
  rewrite Eo in Hperm.
  destruct (done s) as [|a [|b [|c l]]]; simpl in Hperm;
    try (apply Permutation_length in Hperm; simpl in Hperm; discriminate).
  apply Permutation_length_2_inv in Hperm as [H|H]; inversion H; reflexivity.
Defined.

(** [C1], as stated, fails: when provider 1's selector is invalid, its
    panic ends the fan-out with provider 2 dispatched and never awaited;
    nothing is collected and no error is returned. *)
Lemma scraping_abandons_in_flight_sibling :
  exists s, sstar bad_selector_env (sched_init [mkProviders 1; mkProviders 2]) s
  /\ terminal bad_selector_env s /\ panicked s = true
  /\ inflight s = [mkProviders 2] /\ done s = []
  /\ fst (after_scraping bad_selector_env s) = RunPanic.
Proof.
  destruct bad_selector_schedule as [Hr Ht].
  eexists. split; [exact Hr|split; [exact Ht|]]. repeat split.
Qed.

(** ** Run-level failures *)

Lemma run_catalog_failure : forall env tok e o t,
  e_login env = Ok tok -> fetch_providers env = Err e -> run env o t ->
  o = RunPanic /\ ~ In EvPostRun t.
Proof.
  intros env tok e o t Hl Hf Hrun. inversion Hrun; subst.
  - congruence.
  - split; [reflexivity|simpl; intuition discriminate].
  - split; [reflexivity|simpl; intuition discriminate].
  - congruence.
Qed.

Lemma run_login_failure : forall env e o t,
  e_login env = Err e -> run env o t -> o = RunErr e /\ t = [EvLogin].
Proof.
  intros env e o t Hl Hrun. inversion Hrun; subst; try congruence.
  split; congruence.
Qed.

Lemma run_panicking_pipeline : forall env tok catalog o t,
  e_login env = Ok tok -> fetch_providers env = Ok catalog ->
  In PPanic (outs env catalog) -> run env o t ->
  o = RunPanic /\ ~ In EvPostRun t.
Proof.
  intros env tok catalog o t Hl Hf Hin Hrun.
  destruct Hrun as [e He|tok' e Hl' Hc|tok' e Hl' Hc Hf'|tok' cat s Hl' Hc Hf' Hr Ht].
  - congruence.
  - split; [reflexivity|simpl; intuition discriminate].
  - split; [reflexivity|simpl; intuition discriminate].
  - rewrite Hf in Hf'. injection Hf' as <-.
    assert (Hp : panicked s = true) by (eapply panic_in_catalog_panics; eassumption).
    unfold after_scraping. rewrite Hp. simpl. split; [reflexivity|].
    rewrite app_nil_r. intros [H|H]; [discriminate|].
    destruct H as [H|H]; [discriminate|].
    exact (reachable_no_postrun env catalog s Hr H).
Qed.

(** Login succeeds, the catalog request cannot be sent. *)
Definition catalog_down_env : Env := with_catalog demo_env (Transport "connection refused"%string).

(** [C6] (amended) A failed catalog fetch is not returned as an error: the
    [unwrap()] on [fetch_providers] panics, abandoning the run without
    [post_run]; only a failed login is returned as [Err]. *)
Theorem catalog_failure_panics :
  (forall env tok e o t,
     e_login env = Ok tok -> fetch_providers env = Err e -> run env o t ->
     o = RunPanic /\ ~ In EvPostRun t)
  /\ (forall env e o t, e_login env = Err e -> run env o t -> o = RunErr e /\ t = [EvLogin]).
Proof. split; [exact run_catalog_failure|exact run_login_failure]. Qed.

Lemma catalog_failure_panics_witness :
  run catalog_down_env RunPanic [EvLogin; EvGetCatalog]
  /\ ~ In EvPostRun [EvLogin; EvGetCatalog].
Proof.
  assert (Hrun : run catalog_down_env RunPanic [EvLogin; EvGetCatalog]).
  { apply (run_catalog_panic _ (mkToken (chars "secret") (chars "Bearer"))
             "connection refused"%string); reflexivity. }
  split; [exact Hrun|].
  apply (proj1 catalog_failure_panics catalog_down_env
           (mkToken (chars "secret") (chars "Bearer")) "connection refused"%string
           RunPanic [EvLogin; EvGetCatalog]); [reflexivity|reflexivity|exact Hrun].
Defined.

(** [C6], as stated, fails: a failed catalog fetch never surfaces as a
    recoverable error, it panics. *)
Lemma catalog_failure_not_recoverable :
  run catalog_down_env RunPanic [EvLogin; EvGetCatalog]
  /\ ~ (exists e t, run catalog_down_env (RunErr e) t).
Proof.
  split.
  - apply (run_catalog_panic _ (mkToken (chars "secret") (chars "Bearer"))
             "connection refused"%string); reflexivity.
  - intros [e [t Hrun]].
    destruct (run_catalog_failure catalog_down_env (mkToken (chars "secret") (chars "Bearer"))
                "connection refused"%string _ _ eq_refl eq_refl Hrun) as [H _].
    discriminate.
Qed.

(** [C7] (amended) An invalid selector is not contained in its pipeline:
    once the provider is resolved, [Selector::parse(..).unwrap()] panics,
    and every run over that catalog ends in the panic, without [post_run]. *)
Theorem invalid_selector_aborts_run : forall env tok catalog pr provider o t,
  e_login env = Ok tok -> fetch_providers env = Ok catalog -> In pr catalog ->
  e_get_provider env (providers_id pr) = Ok provider ->
  e_sel_ok env (html_element provider) = false ->
  run env o t -> o = RunPanic /\ ~ In EvPostRun t.
Proof.
  intros env tok catalog pr provider o t Hl Hf Hin Hp Hs Hrun.
  apply (run_panicking_pipeline env tok catalog); try assumption.
  unfold outs. apply in_map_iff. exists pr. split; [|exact Hin].
  unfold pipeline. rewrite Hp, Hs. reflexivity.
Qed.

Lemma bad_selector_run :
  run bad_selector_env RunPanic
    [EvLogin; EvGetCatalog; EvGetProvider 1; EvLogScraping (chars "Acme")].
Proof.
  destruct bad_selector_schedule as [Hr Ht].
  apply (run_scrape bad_selector_env (mkToken (chars "secret") (chars "Bearer"))
           [mkProviders 1; mkProviders 2] _ eq_refl eq_refl eq_refl Hr Ht).
Qed.

Lemma invalid_selector_aborts_run_witness :
  run bad_selector_env RunPanic
    [EvLogin; EvGetCatalog; EvGetProvider 1; EvLogScraping (chars "Acme")]
  /\ ~ In EvPostRun [EvLogin; EvGetCatalog; EvGetProvider 1; EvLogScraping (chars "Acme")].
Proof.
  split; [exact bad_selector_run|].
  apply (invalid_selector_aborts_run bad_selector_env (mkToken (chars "secret") (chars "Bearer"))
           [mkProviders 1; mkProviders 2] (mkProviders 1)
           (mkProvider 1 (chars "Acme") (chars "http://x/p") (chars "["))
           RunPanic _); try reflexivity.
  - left; reflexivity.
  - exact bad_selector_run.
Defined.

(** [C7], as stated, fails: provider 1's invalid selector takes the whole
    run down, although provider 2 is well configured. *)
Lemma invalid_selector_not_scoped :
  (forall o t, run bad_selector_env o t -> o = RunPanic)
  /\ run bad_selector_env RunPanic
       [EvLogin; EvGetCatalog; EvGetProvider 1; EvLogScraping (chars "Acme")]
  /\ fst (pipeline bad_selector_env (mkProviders 2)) = PDone (Ok tt).
Proof.
  split; [|split; [exact bad_selector_run|vm_compute; reflexivity]].
  intros o t Hrun.
  refine (proj1 (run_panicking_pipeline bad_selector_env _ [mkProviders 1; mkProviders 2]
                   o t eq_refl eq_refl _ Hrun)).
  vm_compute. left. reflexivity.
Qed.

(** ** The page fetch *)

(** [C8] (amended) The page fetch fails the pipeline exactly when the GET
    cannot be sent or its body cannot be read; the HTTP status is never
    checked, so the body of any response, success or not, is parsed and
    its selector matches become the candidates, in document order. *)
Theorem page_fetch_status_unchecked : forall env pr provider,
  e_get_provider env (providers_id pr) = Ok provider ->
  e_sel_ok env (html_element provider) = true ->
  e_url_ok env (url provider) = true ->
  (forall e, fst (pipeline env pr) = PDone (Err e) <->
     e_page env (url provider) = Transport e \/
     exists status, e_page env (url provider) = Resp status (Err e))
  /\ (forall status body, e_page env (url provider) = Resp status (Ok body) ->
     pipeline env pr =
       (PDone (Ok tt),
        [EvGetProvider (providers_id pr); EvLogScraping (name provider);
         EvGetPage (url provider)]
        ++ extract_price env provider (e_select env (html_element provider) body))).
Proof.
  intros env pr provider Hp Hs Hu. unfold pipeline. rewrite Hp, Hs, Hu. simpl.
  split.
  - intros e. destruct (e_page env (url provider)) as [e'|st [b|e']]; simpl.
    + split; intros H; [left; congruence|].
      destruct H as [H|[st H]]; congruence.
    + split; intros H; [discriminate|]. destruct H as [H|[st' H]]; discriminate.
    + split; intros H.
      * right. exists st. congruence.
      * destruct H as [H|[st' H]]; congruence.
  - intros status body Hpage. rewrite Hpage. reflexivity.
Qed.

(** The page answers [404 Not Found] with a body that still holds a price. *)
Definition not_found_env : Env :=
  with_page demo_env (fun _ => Resp 404 (Ok (chars "kr. 199,-"))).

Lemma page_fetch_status_unchecked_witness :
  pipeline not_found_env (mkProviders 1) =
    (PDone (Ok tt),
     [EvGetProvider 1; EvLogScraping (chars "Acme"); EvGetPage (chars "http://x/p");
      EvPostPrice 1 (lit 199 0); EvLogAdded 1])
  /\ fst (pipeline (with_page demo_env (fun _ => Transport "timeout"%string)) (mkProviders 1))
     = PDone (Err "timeout"%string).
Proof.
  split.
  - rewrite (proj2 (page_fetch_status_unchecked not_found_env (mkProviders 1) acme
                      eq_refl eq_refl eq_refl) 404 (chars "kr. 199,-") eq_refl).
    vm_compute. reflexivity.
  - apply (proj1 (page_fetch_status_unchecked
                    (with_page demo_env (fun _ => Transport "timeout"%string))
                    (mkProviders 1) acme eq_refl eq_refl eq_refl) "timeout"%string).
    left. reflexivity.
Defined.

(** [C8], as stated, fails: a [404] page does not fail the pipeline, and
    the price on the error page is reported. *)
Lemma error_status_page_is_scraped :
  is_success 404 = false
  /\ e_page not_found_env (chars "http://x/p") = Resp 404 (Ok (chars "kr. 199,-"))
  /\ fst (pipeline not_found_env (mkProviders 1)) = PDone (Ok tt)
  /\ In (EvPostPrice 1 (lit 199 0)) (snd (pipeline not_found_env (mkProviders 1))).
Proof.
  split; [reflexivity|split; [reflexivity|split]].
  - vm_compute. reflexivity.
  - vm_compute. right; right; right; left; reflexivity.
Qed.

Lemma inf_is_a_usable_price_witness :
  extract_price demo_env acme [chars "inf"; chars "99,00"] =
    [EvPostPrice 1 (F64Inf false); EvLogAdded 1].
Proof.
  destruct inf_is_a_usable_price as [_ [_ [_ H]]].
  destruct (H demo_env acme [chars "99,00"]) as [-> _].
  vm_compute. reflexivity.
Defined.

(** * Further properties of the scraper *)

(** ** Requests to the control API *)





Definition is_post_price (ev : Event) : bool :=
  match ev with EvPostPrice _ _ => true | _ => false end.



(** ** How a run ends *)

Lemma after_scraping_postrun : forall env s,
  In EvPostRun (snd (after_scraping env s)) ->
  snd (after_scraping env s) = [EvPostRun] /\ panicked s = false /\ first_err (done s) = Ok tt.
Proof.
  intros env s. unfold after_scraping.
  destruct (panicked s); simpl; [tauto|].
  destruct (first_err (done s)) as [[]|e]; simpl; [|tauto].
  destruct (post_run env); simpl; intros _; auto.
Qed.

(** A run reports itself ([post_run]) at most once, as its very last
    effect, and only after a scraping phase with no panic and no pipeline
    error; it succeeds exactly when that report was sent. *)
Theorem run_reports_last : forall env o t,
  run env o t ->
  (In EvPostRun t ->
     (exists t', t = t' ++ [EvPostRun] /\ ~ In EvPostRun t')
     /\ exists catalog s, fetch_providers env = Ok catalog /\
          sstar env (sched_init catalog) s /\ terminal env s /\
          panicked s = false /\ first_err (done s) = Ok tt)
  /\ (o = RunOk <-> In EvPostRun t /\ post_run env = Ok tt).
Proof.
  intros env o t Hrun.
  destruct Hrun as [e He|tok e Hl Hc|tok e Hl Hc Hf|tok cat s Hl Hc Hf Hr Ht].
  - simpl. split; [intros [H|[]]; discriminate|split; [discriminate|intros [[H|[]] _]; discriminate]].
  - simpl. split; [intros [H|[]]; discriminate|split; [discriminate|intros [[H|[]] _]; discriminate]].
  - simpl. split; [intuition discriminate|split; [discriminate|]].
    intros [H _]. simpl in H. intuition discriminate.
  - pose proof (reachable_no_postrun env cat s Hr) as Htr.
    assert (Hpre : ~ In EvPostRun ([EvLogin; EvGetCatalog] ++ trace s)).
    { intros H. apply in_app_or in H as [[H|[H|[]]]|H]; try discriminate. tauto. }
    simpl in Hpre.
    assert (Hin : In EvPostRun ([EvLogin; EvGetCatalog] ++ trace s ++ snd (after_scraping env s))
                  -> In EvPostRun (snd (after_scraping env s))).
    { intros H. rewrite app_assoc in H. apply in_app_or in H as [H|H]; tauto. }
    split.
    + intros H. apply Hin in H.
      destruct (after_scraping_postrun env s H) as [E [Hp Ho]].
      split.
      * exists ([EvLogin; EvGetCatalog] ++ trace s). rewrite E, app_assoc. auto.
      * exists cat, s. auto.
    + unfold after_scraping. destruct (panicked s) eqn:Hp; simpl.
      * split; [discriminate|]. rewrite app_nil_r. intros [H _]. tauto.
      * destruct (first_err (done s)) as [[]|e]; simpl.
        -- destruct (post_run env) as [[]|e] eqn:Hpr; simpl.
           ++ split; [intros _; split; [|reflexivity]|reflexivity].
              right. right. apply in_or_app. right. left. reflexivity.
           ++ split; [discriminate|intros [_ H]; discriminate].
        -- split; [discriminate|]. rewrite app_nil_r. intros [H _]. tauto.
Qed.

Lemma run_reports_last_witness :
  run demo_env RunOk
    [EvLogin; EvGetCatalog; EvGetProvider 1; EvLogScraping (chars "Acme");
     EvGetPage (chars "http://x/p"); EvPostPrice 1 (lit 199 0); EvLogAdded 1; EvPostRun]
  /\ post_run demo_env = Ok tt.
Proof.
  assert (Hr : sstar demo_env (sched_init [mkProviders 1])
                 (mkSched [] [] [Ok tt]
                    [EvGetProvider 1; EvLogScraping (chars "Acme");
                     EvGetPage (chars "http://x/p"); EvPostPrice 1 (lit 199 0); EvLogAdded 1]
                    false)).
  { eapply sstar_step; [apply s_dispatch; unfold max_in_flight; simpl; lia|].
    eapply sstar_step; [apply (s_complete demo_env [] [] (mkProviders 1) [] [] [])|].
    vm_compute. apply sstar_refl. }
  assert (Ht : terminal demo_env (mkSched [] [] [Ok tt]
                    [EvGetProvider 1; EvLogScraping (chars "Acme");
                     EvGetPage (chars "http://x/p"); EvPostPrice 1 (lit 199 0); EvLogAdded 1]
                    false)).
  { intros s' H. inversion H. destruct pre; discriminate. }
  pose proof (run_scrape demo_env (mkToken (chars "secret") (chars "Bearer")) [mkProviders 1] _
                eq_refl eq_refl eq_refl Hr Ht) as Hrun.
  vm_compute in Hrun.
  split; [exact Hrun|].
  apply (proj1 (proj2 (run_reports_last demo_env RunOk _ Hrun)) eq_refl).
Defined.

(** ** What one pipeline reports *)

Lemma extract_price_posts : forall env provider cands,
  (length (filter is_post_price (extract_price env provider cands)) <= 1)%nat
  /\ forall pid v, In (EvPostPrice pid v) (extract_price env provider cands) ->
       pid = id provider /\ gt0 v = true.
Proof.
  intros env provider; induction cands as [|c rest IH]; simpl.
  - split; [lia|intros pid v [H|[]]; discriminate].
  - destruct (sanitize_price_string c) as [v|m]; [|exact IH].
    destruct (gt0 v) eqn:Hv; [|exact IH].
    unfold report_found, add_price_for_provider.
    destruct (e_post_price env (id provider) v) as [e|st [b|e]];
      try destruct (is_success st); simpl;
      (split; [lia|]); intros pid w H;
      repeat (destruct H as [H|H]; [try discriminate; injection H as <- <-; auto|]);
      contradiction.
Qed.

(** Each pipeline sends at most one price report, for the provider it
    resolved, and only with a price [> 0]. *)
Theorem pipeline_reports_at_most_one_price : forall env pr,
  (length (filter is_post_price (snd (pipeline env pr))) <= 1)%nat
  /\ forall pid v, In (EvPostPrice pid v) (snd (pipeline env pr)) ->
       gt0 v = true /\
       exists provider, e_get_provider env (providers_id pr) = Ok provider /\ pid = id provider.
Proof.
  intros env pr. unfold pipeline.
  destruct (e_get_provider env (providers_id pr)) as [provider|e]; simpl;
    [|split; [lia|intros pid v [H|[]]; discriminate]].
  destruct (e_sel_ok env _); simpl; [|split; [lia|intros pid v [H|[H|[]]]; discriminate]].
  destruct (e_url_ok env _); simpl; [|split; [lia|intros pid v [H|[H|[]]]; discriminate]].
  destruct (e_page env _) as [e|st [b|e]]; simpl;
    try (split; [lia|intros pid v H; repeat (destruct H as [H|H]; [discriminate|]); contradiction]).
  destruct (extract_price_posts env provider (e_select env (html_element provider) b)) as [Hc Hp].
  split; [exact Hc|].
  intros pid v H. repeat (destruct H as [H|H]; [discriminate|]).
  destruct (Hp pid v H) as [-> Hv]. split; [exact Hv|]. exists provider. auto.
Qed.

(** ** The fan-out: order and effects *)

Lemma complete_with_trace : forall pend pre post d t out,
  trace (complete_with pend pre post d t out) = t ++ snd out.
Proof. intros pend pre post d t [[r|] evs]; reflexivity. Qed.

(** Pipelines are started in catalog order: the ones not yet started are
    always a suffix of the catalog. *)
Theorem fan_out_dispatch_order : forall env catalog s,
  sstar env (sched_init catalog) s -> exists started, catalog = started ++ pending s.
Proof.
  intros env catalog s H.
  assert (G : forall s1 s2, sstar env s1 s2 ->
            (exists st, catalog = st ++ pending s1) -> exists st, catalog = st ++ pending s2).
  { intros s1 s2 H12. induction H12 as [s1|s1 s2 s3 Hs H23 IH]; intros Hst; [exact Hst|].
    apply IH. inversion Hs; subst; destruct Hst as [st Est]; simpl in *.
    - exists (st ++ [p]). rewrite <- app_assoc. exact Est.
    - exists st. destruct (complete_with_fields pend pre post d t (pipeline env p)) as [-> _].
      exact Est. }
  apply (G _ _ H). exists []. reflexivity.
Qed.

Lemma fan_out_dispatch_order_witness :
  exists started, catalog11 = started ++ pending ten_in_flight.
Proof. exact (fan_out_dispatch_order demo_env catalog11 ten_in_flight ten_in_flight_reachable). Defined.

Definition effects_inv (env : Env) (catalog : list Providers) (s : Sched) : Prop :=
  forall p, In p catalog ->
    In p (inflight s ++ pending s) \/ incl (snd (pipeline env p)) (trace s).

Lemma sstep_effects_inv : forall env catalog s s',
  sstep env s s' -> effects_inv env catalog s -> effects_inv env catalog s'.
Proof.
  intros env catalog s s' H Hi q Hq; inversion H; subst.
  - destruct (Hi q Hq) as [Hin|Hinc]; simpl in *; [left|right; exact Hinc].
    rewrite <- app_assoc. exact Hin.
  - destruct (complete_with_fields pend pre post d t (pipeline env p)) as [Ep Ef].
    rewrite Ep, Ef, complete_with_trace.
    destruct (Hi q Hq) as [Hin|Hinc]; simpl in *.
    + rewrite <- app_assoc in Hin. apply in_app_or in Hin as [Hin|[<-|Hin]].
      * left. apply in_or_app. left. apply in_or_app. left. exact Hin.
      * right. intros ev Hev. apply in_or_app. right. exact Hev.
      * left. rewrite <- app_assoc. apply in_or_app. right. exact Hin.
    + right. intros ev Hev. apply in_or_app. left. exact (Hinc ev Hev).
Qed.

Lemma reachable_effects_inv : forall env catalog s,
  sstar env (sched_init catalog) s -> effects_inv env catalog s.
Proof.
  intros env catalog s H.
  assert (G : forall s1 s2, sstar env s1 s2 -> effects_inv env catalog s1 -> effects_inv env catalog s2).
  { intros s1 s2 H12; induction H12 as [s1|s1 s2 s3 Hs H23 IH]; intros Hi; [exact Hi|].
    apply IH. eapply sstep_effects_inv; eassumption. }
  apply (G _ _ H). intros p Hp. left. exact Hp.
Qed.

Lemma no_panic_reachable : forall env catalog s,
  (forall p, In p catalog -> fst (pipeline env p) <> PPanic) ->
  sstar env (sched_init catalog) s -> panicked s = false.
Proof.
  intros env catalog s Hnp Hr.
  destruct (panicked s) eqn:Hp; [|reflexivity].
  destruct (reachable_inv env catalog s Hr) as [_ Hpan].
  apply Hpan in Hp. unfold outs in Hp. apply in_map_iff in Hp as [p [Hp Hin]].
  exfalso; exact (Hnp p Hin Hp).
Qed.

(** When no pipeline panics, by the end of the fan-out every effect of
    every pipeline of the catalog (its requests, its price report, its log
    lines) has happened, whatever the other pipelines did. *)
Theorem fan_out_runs_every_pipeline : forall env catalog s,
  (forall p, In p catalog -> fst (pipeline env p) <> PPanic) ->
  sstar env (sched_init catalog) s -> terminal env s ->
  forall p ev, In p catalog -> In ev (snd (pipeline env p)) -> In ev (trace s).
Proof.
  intros env catalog s Hnp Hr Ht p ev Hp Hev.
  pose proof (no_panic_reachable env catalog s Hnp Hr) as Hpn.
  destruct (terminal_empty env s Ht Hpn) as [Ep Ef].
  destruct (reachable_effects_inv env catalog s Hr p Hp) as [Hin|Hinc].
  - rewrite Ep, Ef in Hin. destruct Hin.
  - exact (Hinc ev Hev).
Qed.

(** Five providers; the page of provider 3 cannot be fetched. *)
Definition isolation_env : Env :=
  {| e_login := e_login demo_env;
     e_catalog := e_catalog demo_env;
     e_catalog_json := fun _ => Some (map mkProviders [1;2;3;4;5]);
     e_get_provider := fun i =>
       Ok (mkProvider i (chars "Acme")
                      (if i =? 3 then chars "http://x/b" else chars "http://x/p")
                      (chars ".price"));
     e_page := fun u => if existsb (Z.eqb 98) u then Transport "timeout"%string
                        else Resp 200 (Ok (chars "kr. 199,-"));
     e_post_price := e_post_price demo_env;
     e_post_run := e_post_run demo_env;
     e_url_ok := e_url_ok demo_env;
     e_sel_ok := e_sel_ok demo_env;
     e_select := e_select demo_env |}.

Lemma fan_out_runs_every_pipeline_witness :
  exists s, sstar isolation_env (sched_init (map mkProviders [1;2;3;4;5])) s
  /\ terminal isolation_env s
  /\ fst (pipeline isolation_env (mkProviders 3)) = PDone (Err "timeout"%string)
  /\ In (EvPostPrice 1 (lit 199 0)) (trace s) /\ In (EvPostPrice 2 (lit 199 0)) (trace s)
  /\ In (EvPostPrice 4 (lit 199 0)) (trace s) /\ In (EvPostPrice 5 (lit 199 0)) (trace s).
Proof.
  destruct (sched_terminates isolation_env (sched_init (map mkProviders [1;2;3;4;5])))
    as [s [Hr Ht]].
  assert (Hnp : forall p, In p (map mkProviders [1;2;3;4;5]) ->
                          fst (pipeline isolation_env p) <> PPanic).
  { intros p Hin. simpl in Hin.
    repeat (destruct Hin as [<-|Hin]; [vm_compute; discriminate|]). destruct Hin. }
  pose proof (fan_out_runs_every_pipeline isolation_env _ s Hnp Hr Ht) as H.
  exists s. split; [exact Hr|split; [exact Ht|split; [vm_compute; reflexivity|]]].
  split; [|split; [|split]].
  - apply (H (mkProviders 1)); [simpl; tauto|vm_compute; tauto].
  - apply (H (mkProviders 2)); [simpl; tauto|vm_compute; tauto].
  - apply (H (mkProviders 4)); [simpl; tauto|vm_compute; tauto].
  - apply (H (mkProviders 5)); [simpl; tauto|vm_compute; tauto].
Defined.

(** ** Danish price texts *)

(** Characters of a price text besides ["kr."], [","] and [",-"]:
    digits, ['.'] and whitespace. *)
Definition price_char (c : Z) : bool := is_digit c || (c =? 46) || is_whitespace c.

(** The digit values of a text, in order. *)
Definition digit_vals (s : str) : list Z := map (fun c => c - 48) (filter is_digit s).

Ltac zprop H :=
  repeat rewrite ?orb_true_iff, ?andb_true_iff, ?Z.eqb_eq, ?Z.leb_le in H.

Lemma price_char_facts : forall c, price_char c = true ->
  c <> 43 /\ c <> 44 /\ c <> 45 /\ c <> 107.
Proof. intros c H. unfold price_char, is_digit, is_whitespace in H. zprop H. lia. Qed.

Lemma digit_not_ws : forall c, is_digit c = true -> is_whitespace c = false /\ c <> 46.
Proof.
  intros c H. unfold is_digit in H. zprop H.
  destruct (is_whitespace c) eqn:E; [|split; [reflexivity|lia]].
  unfold is_whitespace in E. zprop E. lia.
Qed.

Lemma price_char_absent : forall s c, forallb price_char s = true ->
  c = 43 \/ c = 44 \/ c = 45 \/ c = 107 -> ~ In c s.
Proof.
  intros s c Hs Hc Hin. rewrite forallb_forall in Hs.
  destruct (price_char_facts c (Hs c Hin)) as [H1 [H2 [H3 H4]]]. lia.
Qed.

Lemma replace_char_app : forall c to a b,
  replace_char c to (a ++ b) = replace_char c to a ++ replace_char c to b.
Proof.
  intros c to; induction a as [|d a IH]; intros b; simpl; [reflexivity|].
  destruct (d =? c); rewrite IH; [rewrite app_assoc|]; reflexivity.
Qed.

Lemma remove_ws_app : forall a b, remove_ws (a ++ b) = remove_ws a ++ remove_ws b.
Proof.
  induction a as [|d a IH]; intros b; simpl; [reflexivity|].
  destruct (is_whitespace d); rewrite IH; reflexivity.
Qed.

(** The last three steps of the normaliser keep only the digits of a
    text made of digits, ['.'] and whitespace. *)
Lemma clean_price_chars : forall s, forallb price_char s = true ->
  remove_ws (replace_char 44 (chars ".") (replace_char 46 [] s)) = filter is_digit s.
Proof.
  change (chars ".") with [46].
  induction s as [|c s IH]; simpl; intros H; [reflexivity|].
  apply andb_prop in H as [Hc Hs].
  destruct (is_digit c) eqn:Hd.
  - destruct (digit_not_ws c Hd) as [Hw Hn].
    destruct (price_char_facts c Hc) as [_ [H44 _]].
    apply Z.eqb_neq in Hn, H44. rewrite Hn. simpl. rewrite H44. simpl. rewrite Hw, IH by exact Hs.
    reflexivity.
  - unfold price_char in Hc. rewrite Hd in Hc.
    destruct (Z.eqb_spec c 46) as [->|Hn]; simpl; [apply IH; exact Hs|].
    simpl in Hc. destruct (Z.eqb_spec c 44) as [->|_]; [vm_compute in Hc; discriminate|].
    simpl. rewrite Hc. apply IH; exact Hs.
Qed.

Lemma replace_go_app : forall p0 pat to s1 rest f,
  ~ In p0 s1 -> (length s1 <= f)%nat ->
  replace_go f (p0 :: pat) to (s1 ++ rest) = s1 ++ replace_go (f - length s1) (p0 :: pat) to rest.
Proof.
  intros p0 pat to; induction s1 as [|c s1 IH]; intros rest f Hn Hf.
  - simpl. rewrite Nat.sub_0_r. reflexivity.
  - destruct f as [|f]; [simpl in Hf; lia|]. simpl.
    destruct (Z.eqb_spec p0 c) as [->|_]; [simpl in Hn; tauto|]. simpl.
    rewrite IH; [reflexivity|simpl in Hn; tauto|simpl in Hf; lia].
Qed.

Lemma replace_kr_prefix : forall s, ~ In 107 s -> replace (chars "kr.") [] (chars "kr." ++ s) = s.
Proof.
  intros s H. change (chars "kr.") with [107; 114; 46]. unfold replace.
  change (length ([107; 114; 46] ++ s)) with (S (S (S (length s)))).
  assert (E : replace_go (S (S (S (length s)))) [107; 114; 46] [] ([107; 114; 46] ++ s) =
              replace_go (S (S (length s))) [107; 114; 46] [] s) by reflexivity.
  rewrite E. apply replace_go_absent. exact H.
Qed.

Lemma replace_dash_suffix : forall s, ~ In 44 s -> replace (chars ",-") [] (s ++ chars ",-") = s.
Proof.
  intros s H. change (chars ",-") with [44; 45]. unfold replace.
  rewrite replace_go_app by (rewrite ?length_app; simpl; lia || exact H).
  rewrite length_app, Nat.add_comm, Nat.add_sub. simpl. rewrite app_nil_r. reflexivity.
Qed.

Lemma replace_dash_comma : forall s1 s2,
  ~ In 44 s1 -> ~ In 44 s2 -> ~ In 45 s2 ->
  replace (chars ",-") [] (s1 ++ 44 :: s2) = s1 ++ 44 :: s2.
Proof.
  intros s1 s2 H1 H2 H3. change (chars ",-") with [44; 45]. unfold replace.
  rewrite replace_go_app by (rewrite ?length_app; simpl; lia || exact H1).
  rewrite length_app, Nat.add_comm, Nat.add_sub. change (length (44 :: s2)) with (S (length s2)).
  assert (Hp : prefixb [44; 45] (44 :: s2) = false).
  { destruct s2 as [|c s2]; [reflexivity|].
    change (prefixb [44; 45] (44 :: c :: s2)) with ((44 =? 44) && ((45 =? c) && true)).
    destruct (45 =? c) eqn:E45; [|rewrite andb_false_l, andb_false_r; reflexivity].
    apply Z.eqb_eq in E45. subst c. simpl in H3. tauto. }
  assert (E : replace_go (S (length s2)) [44; 45] [] (44 :: s2) =
              if prefixb [44; 45] (44 :: s2)
              then [] ++ replace_go (length s2) [44; 45] [] (skipn 2 (44 :: s2))
              else 44 :: replace_go (length s2) [44; 45] [] s2) by reflexivity.
  rewrite E, Hp, replace_go_absent by exact H2. reflexivity.
Qed.

Lemma take_digits_app : forall d r, forallb is_digit d = true ->
  match r with c :: _ => is_digit c = false | [] => True end ->
  take_digits (d ++ r) = (map (fun c => c - 48) d, r).
Proof.
  induction d as [|c d IH]; intros r Hd Hr; simpl.
  - destruct r as [|c r]; [reflexivity|]. simpl. rewrite Hr. reflexivity.
  - simpl in Hd. apply andb_prop in Hd as [Hc Hd]. rewrite Hc, IH by assumption. reflexivity.
Qed.

Lemma forallb_filter_digit : forall s, forallb is_digit (filter is_digit s) = true.
Proof.
  intros s. apply forallb_forall. intros x Hx. apply filter_In in Hx. tauto.
Qed.

Lemma with_sign_dec_to_f64 : forall m e, with_sign false (dec_to_f64 m e) = dec_to_f64 m e.
Proof.
  intros m e. unfold dec_to_f64.
  destruct (m =? 0); [reflexivity|].
  assert (R : forall n d, with_sign false (round_pos n d) = round_pos n d).
  { intros n d. unfold round_pos. cbv zeta.
    destruct (round_half_even _ _ =? 2 ^ 53); destruct (971 <? _); reflexivity. }
  destruct (0 <=? e); apply R.
Qed.

Lemma parse_f64_unsigned : forall x m e,
  (exists c r, x = c :: r /\ c <> 45 /\ c <> 43) -> parse_number x = Some (m, e) ->
  parse_f64 x = Ok (dec_to_f64 m e).
Proof.
  intros x m e [c [r [-> [H1 H2]]]] Hp. unfold parse_f64.
  apply Z.eqb_neq in H1, H2. rewrite H1, H2. simpl. rewrite Hp, with_sign_dec_to_f64.
  reflexivity.
Qed.

Lemma digits_head : forall d r, forallb is_digit d = true ->
  d ++ r <> [] -> match r with c :: _ => c = 46 | [] => True end ->
  exists c t, d ++ r = c :: t /\ c <> 45 /\ c <> 43.
Proof.
  intros [|c d] r Hd Hne Hr.
  - destruct r as [|c r]; [tauto|]. exists c, r. rewrite Hr.
    split; [reflexivity|lia].
  - simpl in Hd. apply andb_prop in Hd as [Hc _]. exists c, (d ++ r).
    split; [reflexivity|]. unfold is_digit in Hc. zprop Hc. lia.
Qed.

(** Amounts in the Danish format parse as intended: ['.'] is a thousands
    separator and is dropped wherever it stands, [','] is the decimal
    mark, an optional leading ["kr."] and a trailing [",-"] are dropped,
    and whitespace is ignored; e.g. ["kr. 1.234,50"] is [1234.5] and
    ["kr. 199,-"] is [199]. A ['.'] alone is therefore never a decimal
    point: ["1.5"] is [15]. *)
Theorem sanitize_danish_format : forall s1 s2,
  forallb price_char s1 = true -> forallb price_char s2 = true ->
  (digit_vals s1 <> [] ->
     sanitize_price_string s1 = Ok (lit (digits_value (digit_vals s1)) 0)
     /\ sanitize_price_string (chars "kr." ++ s1 ++ chars ",-") =
        Ok (lit (digits_value (digit_vals s1)) 0))
  /\ (digit_vals s1 ++ digit_vals s2 <> [] ->
     forall pre, pre = [] \/ pre = chars "kr." ->
     sanitize_price_string (pre ++ s1 ++ 44 :: s2) =
       Ok (lit (digits_value (digit_vals s1 ++ digit_vals s2))
               (- Z.of_nat (length (digit_vals s2))))).
Proof.
  intros s1 s2 H1 H2.
  assert (N1 : forall c, c = 43 \/ c = 44 \/ c = 45 \/ c = 107 -> ~ In c s1)
    by (intros c Hc; apply price_char_absent; assumption).
  assert (N2 : forall c, c = 43 \/ c = 44 \/ c = 45 \/ c = 107 -> ~ In c s2)
    by (intros c Hc; apply price_char_absent; assumption).
  assert (Hkr : forall s, ~ In 107 s -> replace (chars "kr.") [] s = s).
  { intros s Hs. change (chars "kr.") with [107; 114; 46]. apply replace_absent. exact Hs. }
  unfold digit_vals. split.
  - intros Hne.
    assert (Hsan : forall x, sanitized x = filter is_digit s1 ->
              sanitize_price_string x = Ok (lit (digits_value (map (fun c => c - 48)
                                                    (filter is_digit s1))) 0)).
    { intros x Hx. unfold sanitize_price_string. rewrite Hx.
      pose proof (digits_head (filter is_digit s1) [] (forallb_filter_digit s1)) as Hh.
      rewrite app_nil_r in Hh.
      rewrite (parse_f64_unsigned _ (digits_value (map (fun c => c - 48) (filter is_digit s1))) 0);
        [reflexivity| |].
      { apply Hh; [intros E; rewrite E in Hne; apply Hne; reflexivity|exact I]. }
      unfold parse_number.
      rewrite <- (app_nil_r (filter is_digit s1)) at 1.
      rewrite take_digits_app by (exact (forallb_filter_digit s1) || exact I).
      destruct (Nat.eqb_spec (length (map (fun c => c - 48) (filter is_digit s1)) + length (@nil Z)) 0)
        as [E|_].
      + exfalso. apply Hne. destruct (map _ _); [reflexivity|simpl in E; lia].
      + rewrite app_nil_r. reflexivity. }
    split; apply Hsan; unfold sanitized.
    + rewrite Hkr by (apply N1; tauto). change (chars ",-") with [44; 45].
      rewrite (replace_absent 44) by (apply N1; tauto).
      apply clean_price_chars. exact H1.
    + rewrite replace_kr_prefix.
      2: { intros Hin. apply in_app_or in Hin as [Hin|Hin]; [apply (N1 107); tauto|].
           simpl in Hin. lia. }
      rewrite replace_dash_suffix by (apply N1; tauto).
      apply clean_price_chars. exact H1.
  - intros Hne pre Hpre.
    assert (Hx : sanitized (pre ++ s1 ++ 44 :: s2) = filter is_digit s1 ++ 46 :: filter is_digit s2).
    { unfold sanitized.
      assert (Hk : replace (chars "kr.") [] (pre ++ s1 ++ 44 :: s2) = s1 ++ 44 :: s2).
      { assert (Hn : ~ In 107 (s1 ++ 44 :: s2)).
        { intros Hin. apply in_app_or in Hin as [Hin|[Hin|Hin]];
            [apply (N1 107); tauto|lia|apply (N2 107); tauto]. }
        destruct Hpre as [ -> | -> ]; [apply Hkr; exact Hn|apply replace_kr_prefix; exact Hn]. }
      rewrite Hk, replace_dash_comma by (apply N1 || apply N2; tauto).
      rewrite !replace_char_app, !remove_ws_app, !clean_price_chars by assumption.
      simpl. rewrite clean_price_chars by exact H2. reflexivity. }
    unfold sanitize_price_string. rewrite Hx.
    erewrite (parse_f64_unsigned _ _ _); [reflexivity| |].
    { apply (digits_head _ _ (forallb_filter_digit s1));
        [intros E; destruct (filter is_digit s1); discriminate|reflexivity]. }
    unfold parse_number.
    rewrite take_digits_app by (exact (forallb_filter_digit s1) || reflexivity).
    simpl. rewrite <- (app_nil_r (filter is_digit s2)) at 1.
    rewrite take_digits_app by (exact (forallb_filter_digit s2) || exact I).
    destruct (Nat.eqb_spec (length (map (fun c => c - 48) (filter is_digit s1))
                           + length (map (fun c => c - 48) (filter is_digit s2))) 0) as [E|_].
    + exfalso. apply Hne. destruct (map _ (filter is_digit s1)); [|simpl in E; lia].
      destruct (map _ (filter is_digit s2)); [reflexivity|simpl in E; lia].
    + reflexivity.
Qed.

Lemma sanitize_danish_format_witness :
  sanitize_price_string (chars "kr. 1.234,50") = Ok (lit 123450 (-2))
  /\ sanitize_price_string (chars "kr. 199,-") = Ok (lit 199 0)
  /\ sanitize_price_string (chars "1.5") = Ok (lit 15 0).
Proof.
  destruct (sanitize_danish_format (chars " 1.234") (chars "50")) as [_ B];
    [vm_compute; reflexivity|vm_compute; reflexivity|].
  destruct (sanitize_danish_format (chars " 199") []) as [C _];
    [vm_compute; reflexivity|reflexivity|].
  destruct (sanitize_danish_format (chars "1.5") []) as [D _];
    [vm_compute; reflexivity|reflexivity|].
  split; [|split].
  - change (chars "kr. 1.234,50") with (chars "kr." ++ chars " 1.234" ++ 44 :: chars "50").
    rewrite (B ltac:(vm_compute; discriminate) _ (or_intror eq_refl)).
    vm_compute. reflexivity.
  - change (chars "kr. 199,-") with (chars "kr." ++ chars " 199" ++ chars ",-").
    rewrite (proj2 (C ltac:(vm_compute; discriminate))). vm_compute. reflexivity.
  - rewrite (proj1 (D ltac:(vm_compute; discriminate))). vm_compute. reflexivity.
Defined.

(** ** Negative amounts *)

Lemma ws_facts : forall c, is_whitespace c = true -> c <> 44 /\ c <> 45 /\ c <> 46 /\ c <> 107.
Proof. intros c H. unfold is_whitespace in H. zprop H. lia. Qed.

Lemma remove_ws_all : forall w, forallb is_whitespace w = true -> remove_ws w = [].
Proof.
  induction w as [|c w IH]; simpl; intros H; [reflexivity|].
  apply andb_prop in H as [Hc Hw]. rewrite Hc. apply IH. exact Hw.
Qed.

Lemma sanitized_minus : forall w r, forallb is_whitespace w = true ->
  exists t, sanitized (w ++ 45 :: r) = 45 :: t.
Proof.
  intros w r Hw.
  assert (Hn : forall c, c = 44 \/ c = 46 \/ c = 107 -> ~ In c (w ++ [45])).
  { intros c Hc Hin. apply in_app_or in Hin as [Hin|[Hin|[]]]; [|lia].
    rewrite forallb_forall in Hw. pose proof (ws_facts c (Hw c Hin)). lia. }
  assert (Hr : forall p0 pat s, ~ In p0 (w ++ [45]) ->
            exists s', replace (p0 :: pat) [] ((w ++ [45]) ++ s) = (w ++ [45]) ++ s').
  { intros p0 pat s Hp. unfold replace. rewrite replace_go_app; [eexists; reflexivity|exact Hp|].
    rewrite !length_app. lia. }
  assert (Hc : forall c to s, ~ In c (w ++ [45]) ->
            replace_char c to ((w ++ [45]) ++ s) = (w ++ [45]) ++ replace_char c to s).
  { intros c to s Hp. rewrite replace_char_app, replace_char_absent by exact Hp. reflexivity. }
  unfold sanitized. replace (w ++ 45 :: r) with ((w ++ [45]) ++ r) by (rewrite <- app_assoc; reflexivity).
  change (chars "kr.") with [107; 114; 46]. change (chars ",-") with [44; 45].
  destruct (Hr 107 [114; 46] r) as [r1 ->]; [apply Hn; tauto|].
  destruct (Hr 44 [45] r1) as [r2 ->]; [apply Hn; tauto|].
  rewrite Hc by (apply Hn; tauto). rewrite Hc by (apply Hn; tauto).
  rewrite !remove_ws_app, remove_ws_all by exact Hw.
  eexists. reflexivity.
Qed.

(** A candidate text that starts with ['-'], after any whitespace, is
    never taken as a price: it normalizes to a negative number, a negative
    infinity, NaN or an error, none of which passes the [price > 0.0] test,
    so [extract_price] moves on to the next candidate. *)
Theorem minus_candidate_skipped : forall w r,
  forallb is_whitespace w = true ->
  (forall v, sanitize_price_string (w ++ 45 :: r) = Ok v -> gt0 v = false)
  /\ forall env provider rest,
       extract_price env provider ((w ++ 45 :: r) :: rest) = extract_price env provider rest.
Proof.
  intros w r Hw.
  assert (Hv : forall v, sanitize_price_string (w ++ 45 :: r) = Ok v -> gt0 v = false).
  { intros v. destruct (sanitized_minus w r Hw) as [t Ht].
    unfold sanitize_price_string. rewrite Ht. unfold parse_f64. rewrite Z.eqb_refl. simpl.
    destruct t as [|c t]; [discriminate|].
    destruct (parse_number (c :: t)) as [[m e]|].
    - intros H. injection H as <-. destruct (dec_to_f64 m e); reflexivity.
    - destruct (parse_inf_nan (c :: t)) as [x|]; [|discriminate].
      intros H. injection H as <-. destruct x; reflexivity. }
  split; [exact Hv|].
  intros env provider rest.
  apply (extract_price_skip env provider [w ++ 45 :: r] rest).
  intros x [<-|[]]. unfold usable.
  destruct (sanitize_price_string (w ++ 45 :: r)) as [v|m] eqn:E; [|reflexivity].
  exact (Hv v eq_refl).
Qed.

Lemma minus_candidate_skipped_witness :
  extract_price demo_env acme [chars " -199,00"; chars "kr. 149,-"] =
    extract_price demo_env acme [chars "kr. 149,-"]
  /\ sanitize_price_string (chars "-inf") = Ok (F64Inf true) /\ gt0 (F64Inf true) = false.
Proof.
  split.
  - change (chars " -199,00") with ([32] ++ 45 :: chars "199,00").
    apply (proj2 (minus_candidate_skipped [32] (chars "199,00") eq_refl)).
  - pose proof (proj1 (minus_candidate_skipped [] (chars "inf") eq_refl)) as H.
    assert (E : sanitize_price_string (chars "-inf") = Ok (F64Inf true)) by (vm_compute; reflexivity).
    split; [exact E|exact (H _ E)].
Defined.

(** ** Texts without digits *)

Lemma sanitized_price_chars : forall s, forallb price_char s = true ->
  sanitized s = filter is_digit s
  /\ sanitized (chars "kr." ++ s ++ chars ",-") = filter is_digit s.
Proof.
  intros s H.
  assert (N : forall c, c = 43 \/ c = 44 \/ c = 45 \/ c = 107 -> ~ In c s)
    by (intros c Hc; apply price_char_absent; assumption).
  unfold sanitized. split.
  - change (chars "kr.") with [107; 114; 46]. change (chars ",-") with [44; 45].
    rewrite (replace_absent 107) by (apply N; tauto).
    rewrite (replace_absent 44) by (apply N; tauto). apply clean_price_chars. exact H.
  - rewrite replace_kr_prefix.
    2: { intros Hin. apply in_app_or in Hin as [Hin|Hin]; [apply (N 107); tauto|].
         simpl in Hin. lia. }
    rewrite replace_dash_suffix by (apply N; tauto). apply clean_price_chars. exact H.
Qed.

(** A text of whitespace and ['.'] only, possibly inside ["kr."] and
    [",-"], is left empty by the normaliser, and the parse fails with the
    empty-string error; such a candidate is skipped. *)
Theorem sanitize_no_digits_empty : forall s,
  forallb price_char s = true -> filter is_digit s = [] ->
  sanitize_price_string s =
    Err "Failed to parse price: cannot parse float from empty string"%string
  /\ sanitize_price_string (chars "kr." ++ s ++ chars ",-") =
    Err "Failed to parse price: cannot parse float from empty string"%string.
Proof.
  intros s H Hd. destruct (sanitized_price_chars s H) as [E1 E2].
  unfold sanitize_price_string. rewrite E1, E2, Hd. split; reflexivity.
Qed.

Lemma sanitize_no_digits_empty_witness :
  sanitize_price_string (chars "kr. ,-") =
    Err "Failed to parse price: cannot parse float from empty string"%string
  /\ sanitize_price_string (chars " ... ") =
    Err "Failed to parse price: cannot parse float from empty string"%string.
Proof.
  split.
  - change (chars "kr. ,-") with (chars "kr." ++ chars " " ++ chars ",-").
    apply (proj2 (sanitize_no_digits_empty (chars " ") eq_refl eq_refl)).
  - apply (proj1 (sanitize_no_digits_empty (chars " ... ") eq_refl eq_refl)).
Defined.

(** ** An empty catalog *)

Lemma sstar_empty : forall env s, sstar env (sched_init []) s -> s = sched_init [].
Proof.
  intros env s H. inversion H as [|s1 s2 s3 Hs _]; [reflexivity|].
  exfalso. inversion Hs as [|pend pre p post d t].
  match goal with E : _ ++ _ :: _ = [] |- _ => exact (app_cons_not_nil _ _ _ (eq_sym E)) end.
Qed.

(** With an empty provider catalog nothing is scraped: after logging in
    and fetching the catalog, the run reports itself straight away, and
    its outcome is that of [post_run]. *)
Theorem empty_catalog_run : forall env tok,
  e_login env = Ok tok -> configure_client tok = Ok tt -> fetch_providers env = Ok [] ->
  let o := match post_run env with Ok _ => RunOk | Err e => RunErr e end in
  run env o [EvLogin; EvGetCatalog; EvPostRun]
  /\ forall o' t, run env o' t -> o' = o /\ t = [EvLogin; EvGetCatalog; EvPostRun].
Proof.
  intros env tok Hl Hc Hf o.
  assert (Ht : terminal env (sched_init [])).
  { intros s' Hs. inversion Hs as [|pend pre p post d t].
    match goal with E : _ ++ _ :: _ = [] |- _ => exact (app_cons_not_nil _ _ _ (eq_sym E)) end. }
  assert (Ha : after_scraping env (sched_init []) = (o, [EvPostRun])).
  { unfold after_scraping, o. simpl. destruct (post_run env); reflexivity. }
  split.
  - pose proof (run_scrape env tok [] (sched_init []) Hl Hc Hf (sstar_refl env _) Ht) as R.
    rewrite Ha in R. exact R.
  - intros o' t R.
    destruct R as [e He|tok' e Hl' Hc'|tok' e Hl' Hc' Hf'|tok' cat s Hl' Hc' Hf' Hr Hts].
    + rewrite Hl in He. discriminate.
    + rewrite Hl in Hl'. injection Hl' as <-. rewrite Hc in Hc'. discriminate.
    + rewrite Hf in Hf'. discriminate.
    + rewrite Hf in Hf'. injection Hf' as <-. apply sstar_empty in Hr. subst s.
      rewrite Ha. split; reflexivity.
Qed.

Definition empty_catalog_env : Env :=
  {| e_login := e_login demo_env;
     e_catalog := e_catalog demo_env;
     e_catalog_json := fun _ => Some [];
     e_get_provider := e_get_provider demo_env;
     e_page := e_page demo_env;
     e_post_price := e_post_price demo_env;
     e_post_run := Transport "connection refused"%string;
     e_url_ok := e_url_ok demo_env;
     e_sel_ok := e_sel_ok demo_env;
     e_select := e_select demo_env |}.

Lemma empty_catalog_run_witness :
  run empty_catalog_env (RunErr "connection refused"%string) [EvLogin; EvGetCatalog; EvPostRun].
Proof.
  exact (proj1 (empty_catalog_run empty_catalog_env (mkToken (chars "secret") (chars "Bearer"))
                  eq_refl eq_refl eq_refl)).
Defined.
